(** * TimeMark: the photo watermark editor and its admin endpoint

    A shallow embedding of [timemarkapp.py]: the editor script served in
    [INDEX_HTML] (canvas sizing, date formatting, the text fitter, the blur
    mask, the two text clusters, the button and pointer listeners) and the
    Flask handler [admin_delete_user].

    Conventions of the embedding.
    - A JavaScript number that the script only ever uses as an integer
      (canvas sizes, font sizes, paddings) is a [Z]; one that may be
      fractional (measured text widths, positions derived from them, the
      scale ratio) is a [Q].  Decimal constants are read exactly
      ([0.60] is [3/5]).
    - A JavaScript or Python string is a [string] holding its UTF-8 bytes;
      the [length] property of a JavaScript string counts UTF-16 code units
      and is [js_length].
    - The 2D context of the visible canvas is a display list: the drawing
      calls issued since the bitmap was last blank.  The mask canvas is kept
      pixel by pixel, since the script reads its alpha channel back. *)

From Stdlib Require Import ZArith QArith Qround Qminmax Lia Lqa.
From Stdlib Require Import String Ascii List Bool.
From stdpp Require Import base tactics option list gmap strings pretty.
Import ListNotations.

Local Open Scope string_scope.
Local Open Scope Z_scope.

(** ** JavaScript primitives used by the script *)

Module JS.

(** [Math.round(x)]: the nearest integer, halves going up. *)
Definition Math_round (x : Q) : Z := Qfloor (x + (1 # 2)).

(** [clamp(n, lo, hi)] is [Math.max(lo, Math.min(hi, n))]; every call site
    passes integers. *)
Definition clamp (n lo hi : Z) : Z := Z.max lo (Z.min hi n).

(** [a || b] on strings: the empty string is the only falsy one. *)
Definition or_else (a b : string) : string :=
  match a with
  | EmptyString => b
  | _ => a
  end.

(** Number of UTF-16 code units coded by one UTF-8 byte: continuation
    bytes count for nothing, the lead byte of a four-byte sequence for a
    surrogate pair. *)
Definition units_of_byte (c : ascii) : nat :=
  let b := N_of_ascii c in
  if (b <? 128)%N then 1%nat
  else if (b <? 192)%N then 0%nat
  else if (b <? 240)%N then 1%nat
  else 2%nat.

(** [s.length]. *)
Fixpoint js_length (s : string) : nat :=
  match s with
  | EmptyString => 0%nat
  | String c s' => (units_of_byte c + js_length s')%nat
  end.

(** [s.split(sep)] for a one-character separator: always at least one
    part. *)
Fixpoint split (sep : ascii) (s : string) : list string :=
  match s with
  | EmptyString => [EmptyString]
  | String c s' =>
      if Ascii.eqb c sep then EmptyString :: split sep s'
      else match split sep s' with
           | p :: ps => String c p :: ps
           | [] => [String c EmptyString]
           end
  end.

(** [n] copies of the character [c]. *)
Fixpoint replicate_char (n : nat) (c : ascii) : string :=
  match n with
  | O => EmptyString
  | S n' => String c (replicate_char n' c)
  end.

(** [s.padStart(n, c)] for a one-character filler. *)
Definition padStart (n : nat) (c : ascii) (s : string) : string :=
  replicate_char (n - js_length s) c ++ s.

End JS.
Import JS.

(** ** Date formatting *)

Definition hyphen : ascii := "-"%char.

(** [formatDateDDMMYYYY(iso)]. *)
Definition formatDateDDMMYYYY (iso : string) : string :=
  match iso with
  | EmptyString => EmptyString
  | _ =>
      match split hyphen iso with
      | [y; m0; d0] =>
          let m := padStart 2 "0"%char m0 in
          let d := padStart 2 "0"%char d0 in
          d ++ "/" ++ m ++ "/" ++ y
      | _ => EmptyString
      end
  end.

(** ** Fonts and text measurement *)

(** The CSS font shorthand built by the templates: a weight, a pixel size
    and the family list, which is the same in every template. *)
Record Font := mkFont { font_weight : Z; font_px : Z; font_family : string }.

(** The family list, with the family name in single quotes. *)
Definition roboto_stack : string :=
  "'Roboto Condensed', Roboto, Arial, sans-serif".

Definition font400 (s : Z) : Font := mkFont 400 s roboto_stack.
Definition font700 (s : Z) : Font := mkFont 700 s roboto_stack.

Section TextFitter.

(** [ctx.font = f; ctx.measureText(text).width], supplied by the browser. *)
Variable measureText : Font -> string -> Q.

Variable text : string.
Variable fontTemplateFn : Z -> Font.
Variable minSize : Z.
Variable maxWidth : Q.

Definition fits (size : Z) : bool :=
  Qle_bool (measureText (fontTemplateFn size) text) maxWidth.

(** The [while (size > minSize)] loop, counted down on the number of
    sizes left above [minSize]. *)
Fixpoint fitLoop (left : nat) (size : Z) : Z :=
  match left with
  | O => minSize
  | S left' => if fits size then size else fitLoop left' (size - 1)
  end.

Definition fitFrom (size : Z) : Z := fitLoop (Z.to_nat (size - minSize)) size.

End TextFitter.

(** [fitFontToWidth(ctx, text, fontTemplateFn, startSize, minSize, maxWidth)]. *)
Definition fitFontToWidth (measureText : Font -> string -> Q) (text : string)
    (fontTemplateFn : Z -> Font) (startSize minSize : Z) (maxWidth : Q) : Z :=
  fitFrom measureText text fontTemplateFn minSize maxWidth startSize.


(** ** Rasters *)

Record Pixel := mkPixel { red : Z; green : Z; blue : Z; alpha : Z }.

Definition transparent : Pixel := mkPixel 0 0 0 0.

(** A canvas kept pixel by pixel, row-major: the mask. *)
Record PixelCanvas := mkPixelCanvas {
  pc_width : Z;
  pc_height : Z;
  pc_data : list Pixel
}.

Definition blankPixels (w h : Z) : list Pixel :=
  replicate (Z.to_nat (w * h)) transparent.

(** A canvas element as [document.createElement("canvas")] returns it. *)
Definition newPixelCanvas : PixelCanvas := mkPixelCanvas 300 150 (blankPixels 300 150).

(** [c.width = w] and [c.height = h]: either assignment replaces the bitmap
    by a transparent one of the new size. *)
Definition pc_setWidth (w : Z) (c : PixelCanvas) : PixelCanvas :=
  mkPixelCanvas w (pc_height c) (blankPixels w (pc_height c)).

Definition pc_setHeight (h : Z) (c : PixelCanvas) : PixelCanvas :=
  mkPixelCanvas (pc_width c) h (blankPixels (pc_width c) h).

Definition inRect (x y w h px py : Z) : bool :=
  (x <=? px) && (px <? x + w) && (y <=? py) && (py <? y + h).

(** [ctx.clearRect(x, y, w, h)] on integer coordinates: the pixels of the
    rectangle become transparent black, the others stay. *)
Definition pc_clearRect (x y w h : Z) (c : PixelCanvas) : PixelCanvas :=
  mkPixelCanvas (pc_width c) (pc_height c)
    (imap (fun i p =>
             if inRect x y w h (Z.of_nat i mod pc_width c) (Z.of_nat i / pc_width c)
             then transparent else p)
          (pc_data c)).

(** [ctx.getImageData(0, 0, c.width, c.height).data]: four bytes a pixel. *)
Definition imageDataBytes (c : PixelCanvas) : list Z :=
  flat_map (fun p => [red p; green p; blue p; alpha p]) (pc_data c).

(** The loop [for (i = 3; i < d.length; i += 4) if (d[i] > 0) return true],
    counted down on a bound for the iterations left. *)
Fixpoint alphaScan (d : list Z) (left i : nat) : bool :=
  match left with
  | O => false
  | S left' =>
      match d !! i with
      | Some a => if 0 <? a then true else alphaScan d left' (i + 4)
      | None => false
      end
  end.

(** [maskHasSomething()], on the mask canvas. *)
Definition maskHasSomething (m : PixelCanvas) : bool :=
  if (pc_width m =? 0) || (pc_height m =? 0) then false
  else
    let d := imageDataBytes m in
    alphaScan d (length d) 3.

(** A decoded image. *)
Record Image := mkImage {
  naturalWidth : N;
  naturalHeight : N;
  bitmap : list Pixel
}.

Inductive Composite := SourceOver | DestinationIn.
Inductive TextAlign := AlignLeft | AlignCenter.
Inductive TextBaseline := Alphabetic | Bottom.

Record Shadow := mkShadow {
  shadowColor : string;
  shadowBlur : Z;
  shadowOffsetX : Z;
  shadowOffsetY : Z
}.

Definition noShadow : Shadow := mkShadow "rgba(0,0,0,0)" 0 0 0.

(** The drawing calls the script issues on a 2D context.  [DrawImage]
    covers the three forms of [drawImage]: [srcRect] is the source
    rectangle when one is given, [dsize] the destination size when one is
    given. *)
Inductive DrawOp :=
| ClearRect (x y w h : Z)
| DrawImage (src : Source) (srcRect : option (Z * Z * Z * Z)) (dx dy : Z)
    (dsize : option (Z * Z)) (gco : Composite)
| FillText (text : string) (x y : Q) (font : Font) (align : TextAlign)
    (baseline : TextBaseline) (fillStyle : string) (shadow : Shadow) (scaleY : Q)
| StrokeLine (x : Q) (y1 y2 : Z) (lineWidth : Z) (strokeStyle : string)
with Source :=
| ImageSource (i : Image)
| LayerSource (w h : Z) (ops : list DrawOp)
| MaskSource (m : PixelCanvas).

(** A canvas kept as its display list. *)
Record Canvas := mkCanvas {
  cv_width : Z;
  cv_height : Z;
  cv_ops : list DrawOp
}.

(** A canvas element before the script sizes it. *)
Definition newCanvas : Canvas := mkCanvas 300 150 [].

Definition cv_setWidth (w : Z) (c : Canvas) : Canvas := mkCanvas w (cv_height c) [].
Definition cv_setHeight (h : Z) (c : Canvas) : Canvas := mkCanvas (cv_width c) h [].

Definition draw (op : DrawOp) (c : Canvas) : Canvas :=
  mkCanvas (cv_width c) (cv_height c) (cv_ops c ++ [op])%list.

(** [ctx.clearRect(x, y, w, h)]: a rectangle that covers the canvas leaves
    a blank bitmap, whatever was drawn before. *)
Definition cv_clearRect (x y w h : Z) (c : Canvas) : Canvas :=
  if (x <=? 0) && (y <=? 0) && (cv_width c <=? x + w) && (cv_height c <=? y + h)
  then mkCanvas (cv_width c) (cv_height c) []
  else draw (ClearRect x y w h) c.

Definition asSource (c : Canvas) : Source := LayerSource (cv_width c) (cv_height c) (cv_ops c).

(** ** The editor's state *)

(** The script's global variables, the values of the form controls it
    reads, and what it shows to the user: the status line, the [alert]
    boxes raised so far and the files offered for download. *)
Record Editor := mkEditor {
  cv : Canvas;
  maskCanvas : PixelCanvas;
  img : Image;
  hasImage : bool;
  originalBitmap : option Canvas;
  maskEnabled : bool;
  isPainting : bool;
  timeValue : string;
  dateValue : string;
  dowValue : string;
  brushValue : Z;
  statusText : string;
  alerts : list string;
  downloads : list (string * Canvas)
}.

Definition with_cv (c : Canvas) (st : Editor) : Editor :=
  mkEditor c (maskCanvas st) (img st) (hasImage st) (originalBitmap st)
    (maskEnabled st) (isPainting st) (timeValue st) (dateValue st) (dowValue st)
    (brushValue st) (statusText st) (alerts st) (downloads st).

Definition with_maskCanvas (m : PixelCanvas) (st : Editor) : Editor :=
  mkEditor (cv st) m (img st) (hasImage st) (originalBitmap st)
    (maskEnabled st) (isPainting st) (timeValue st) (dateValue st) (dowValue st)
    (brushValue st) (statusText st) (alerts st) (downloads st).

Definition with_img (i : Image) (st : Editor) : Editor :=
  mkEditor (cv st) (maskCanvas st) i (hasImage st) (originalBitmap st)
    (maskEnabled st) (isPainting st) (timeValue st) (dateValue st) (dowValue st)
    (brushValue st) (statusText st) (alerts st) (downloads st).

Definition with_hasImage (b : bool) (st : Editor) : Editor :=
  mkEditor (cv st) (maskCanvas st) (img st) b (originalBitmap st)
    (maskEnabled st) (isPainting st) (timeValue st) (dateValue st) (dowValue st)
    (brushValue st) (statusText st) (alerts st) (downloads st).

Definition with_originalBitmap (o : option Canvas) (st : Editor) : Editor :=
  mkEditor (cv st) (maskCanvas st) (img st) (hasImage st) o
    (maskEnabled st) (isPainting st) (timeValue st) (dateValue st) (dowValue st)
    (brushValue st) (statusText st) (alerts st) (downloads st).

Definition with_maskEnabled (b : bool) (st : Editor) : Editor :=
  mkEditor (cv st) (maskCanvas st) (img st) (hasImage st) (originalBitmap st)
    b (isPainting st) (timeValue st) (dateValue st) (dowValue st)
    (brushValue st) (statusText st) (alerts st) (downloads st).

Definition with_isPainting (b : bool) (st : Editor) : Editor :=
  mkEditor (cv st) (maskCanvas st) (img st) (hasImage st) (originalBitmap st)
    (maskEnabled st) b (timeValue st) (dateValue st) (dowValue st)
    (brushValue st) (statusText st) (alerts st) (downloads st).

Definition with_fields (t d w : string) (st : Editor) : Editor :=
  mkEditor (cv st) (maskCanvas st) (img st) (hasImage st) (originalBitmap st)
    (maskEnabled st) (isPainting st) t d w
    (brushValue st) (statusText st) (alerts st) (downloads st).

Definition with_brushValue (b : Z) (st : Editor) : Editor :=
  mkEditor (cv st) (maskCanvas st) (img st) (hasImage st) (originalBitmap st)
    (maskEnabled st) (isPainting st) (timeValue st) (dateValue st) (dowValue st)
    b (statusText st) (alerts st) (downloads st).

(** [setStatus(t)]. *)
Definition setStatus (t : string) (st : Editor) : Editor :=
  mkEditor (cv st) (maskCanvas st) (img st) (hasImage st) (originalBitmap st)
    (maskEnabled st) (isPainting st) (timeValue st) (dateValue st) (dowValue st)
    (brushValue st) t (alerts st) (downloads st).

(** [alert(t)]. *)
Definition alert (t : string) (st : Editor) : Editor :=
  mkEditor (cv st) (maskCanvas st) (img st) (hasImage st) (originalBitmap st)
    (maskEnabled st) (isPainting st) (timeValue st) (dateValue st) (dowValue st)
    (brushValue st) (statusText st) (alerts st ++ [t])%list (downloads st).

Definition offerDownload (name : string) (st : Editor) : Editor :=
  mkEditor (cv st) (maskCanvas st) (img st) (hasImage st) (originalBitmap st)
    (maskEnabled st) (isPainting st) (timeValue st) (dateValue st) (dowValue st)
    (brushValue st) (statusText st) (alerts st) (downloads st ++ [(name, cv st)])%list.

(** The page as it is served: both canvases at their default size, no
    image, the time control at its default, the weekday control at its
    selected option. *)
Definition initial : Editor :=
  mkEditor newCanvas newPixelCanvas (mkImage 0 0 []) false None
    false false "05:37" EmptyString "Thứ Năm" 55 "Sẵn sàng" [] [].

(** ** Canvas sizing *)

Definition MAX_DIM : Z := 2500.

(** [Math.min(MAX_DIM/w, MAX_DIM/h)]; a division by zero is [Infinity] in
    JavaScript and loses the minimum. *)
Definition capRatio (w h : Z) : Q :=
  if w =? 0 then inject_Z MAX_DIM / inject_Z h
  else if h =? 0 then inject_Z MAX_DIM / inject_Z w
  else Qmin (inject_Z MAX_DIM / inject_Z w) (inject_Z MAX_DIM / inject_Z h).

(** [fitCanvasToImage(w, h)]. *)
Definition fitCanvasToImage (w h : Z) (st : Editor) : Editor :=
  let '(w, h) :=
    if (MAX_DIM <? w) || (MAX_DIM <? h) then
      let ratio := capRatio w h in
      (Math_round (inject_Z w * ratio), Math_round (inject_Z h * ratio))
    else (w, h) in
  let st := with_cv (cv_setHeight h (cv_setWidth w (cv st))) st in
  let st := with_maskCanvas (pc_setHeight h (pc_setWidth w (maskCanvas st))) st in
  with_maskCanvas (pc_clearRect 0 0 w h (maskCanvas st)) st.

(** ** The base layer and the regional blur *)

(** [drawBase()]: the sharp image and, when the mask has content, its blurred
    copy cut to the mask on top. *)
Definition drawBase (st : Editor) : Editor :=
  let c := cv_clearRect 0 0 (cv_width (cv st)) (cv_height (cv st)) (cv st) in
  let c := draw (DrawImage (ImageSource (img st)) None 0 0
                   (Some (cv_width c, cv_height c)) SourceOver) c in
  if maskHasSomething (maskCanvas st) then
    let w := cv_width c in
    let h := cv_height c in
    let sw := Z.max 1 (Qfloor (inject_Z w * 0.15)) in
    let sh := Z.max 1 (Qfloor (inject_Z h * 0.15)) in
    let small :=
      draw (DrawImage (ImageSource (img st)) (Some (0, 0, w, h)) 0 0
              (Some (sw, sh)) SourceOver)
           (mkCanvas sw sh []) in
    let blur :=
      draw (DrawImage (asSource small) (Some (0, 0, sw, sh)) 0 0
              (Some (w, h)) SourceOver)
           (mkCanvas w h []) in
    let blur := draw (DrawImage (MaskSource (maskCanvas st)) None 0 0 None DestinationIn) blur in
    with_cv (draw (DrawImage (asSource blur) None 0 0 None SourceOver) c) st
  else with_cv c st.

(** ** The layout engine *)

(** Geometry of the left cluster: every constant [drawLeftCluster] computes
    before it draws, under the name the script gives it. *)
Record LeftLayout := mkLeftLayout {
  leftMaxWidth : Z;
  leftX : Z;
  bottomPad : Z;
  rightLimit : Z;
  maxWidth : Z;
  addrFont : Z;
  addrLineH : Z;
  timeFont : Z;
  maxTimeW : Z;
  metaFont : Z;
  addrBottomY : Z;
  timeBaselineY : Z;
  timeW : Q;
  gapX : Z;
  lineX : Q;
  lineTop : Z;
  lineBottom : Z;
  lineWidth : Z;
  metaX : Q;
  metaMaxW : Q;
  dateY : Z;
  dowY : Z
}.

Definition addr1 : string := "268B Võ Nguyên Giáp, Bắc Mỹ Phú, Ngũ".
Definition addr2 : string := "Hành Sơn, Đà Nẵng 550000".

Definition timePart : string := "Time".
Definition markPart : string := "mark".
Definition fullText : string := timePart ++ markPart.
Definition subText : string := "100% Chân thực".

Definition timeScaleY : Q := 1.50.

Section Layout.

(** The browser's text metrics. *)
Variable measureText : Font -> string -> Q.

(** [drawWatermark(ctx, W, H)]: the canvas after the three [fillText]
    calls, and the reserved span it returns. *)
Definition drawWatermark (W H : Z) (c : Canvas) : Canvas * Z :=
  let BASE := Z.min W H in
  let padR := clamp (Math_round (inject_Z W * 0.02)) 10 40 in
  let padB := clamp (Math_round (inject_Z H * 0.03)) 10 60 in
  let wmFont := clamp (Math_round (inject_Z BASE * 0.050)) 16 44 in
  let wmTpl := font700 in
  let subTpl := font700 in
  let maxWmWidth := Math_round (inject_Z W * 0.35) in
  let wmFont := fitFontToWidth measureText fullText wmTpl wmFont 12 (inject_Z maxWmWidth) in
  let subFont := clamp (Math_round (inject_Z wmFont * 0.55)) 10 24 in
  let wmWidth := measureText (wmTpl wmFont) fullText in
  let timeW := measureText (wmTpl wmFont) timePart in
  let startX := (inject_Z W - inject_Z padR - wmWidth)%Q in
  let centerX := (startX + wmWidth / 2)%Q in
  let yBottom := H - padB in
  let shadow :=
    mkShadow "rgba(0,0,0,0.22)" (Math_round (inject_Z BASE * 0.004)) 0
             (Math_round (inject_Z BASE * 0.001)) in
  let c := draw (FillText subText centerX (inject_Z yBottom) (subTpl subFont)
                   AlignCenter Bottom "#E6E6E6" shadow 1) c in
  let yTop := yBottom - Math_round (inject_Z subFont * 1.15) in
  let c := draw (FillText timePart startX (inject_Z yTop) (wmTpl wmFont)
                   AlignLeft Bottom "#F2B644" shadow 1) c in
  let c := draw (FillText markPart (startX + timeW) (inject_Z yTop) (wmTpl wmFont)
                   AlignLeft Bottom "#FFFFFF" shadow 1) c in
  (c, padR + Math_round wmWidth + clamp (Math_round (inject_Z W * 0.03)) 12 40).

(** The computations of [drawLeftCluster] that come before its drawing
    calls. *)
Definition leftLayout (W H reservedRight : Z) (timeVal dateText dowText : string)
    : LeftLayout :=
  let BASE := Z.min W H in
  let leftMaxWidth := Math_round (inject_Z W * 0.60) in
  let leftX := clamp (Math_round (inject_Z W * 0.03)) 10 42 in
  let bottomPad := clamp (Math_round (inject_Z H * 0.04)) 10 70 in
  let rightLimit := Z.min (leftX + leftMaxWidth) (W - reservedRight) in
  let maxWidth := Z.max 150 (rightLimit - leftX) in
  let addrFont := clamp (Math_round (inject_Z BASE * 0.040)) 12 34 in
  let addrTpl := font400 in
  let addrFont := fitFontToWidth measureText addr1 addrTpl addrFont 10 (inject_Z maxWidth) in
  let addrLineH := Math_round (inject_Z addrFont * 1.18) in
  let addrBlockH := addrLineH * 2 in
  let gapMetaToAddr := clamp (Math_round (inject_Z BASE * 0.030)) 10 36 in
  let timeFont := clamp (Math_round (inject_Z BASE * 0.085)) 28 82 in
  let timeTpl := font700 in
  let minMetaW := Math_round (inject_Z maxWidth * 0.34) in
  let maxTimeW := Z.max 80 (maxWidth - minMetaW) in
  let timeFont := fitFontToWidth measureText timeVal timeTpl timeFont 18 (inject_Z maxTimeW) in
  let metaFont := clamp (Math_round (inject_Z timeFont * 0.40)) 10 36 in
  let metaTpl := font400 in
  let addrBottomY := H - bottomPad in
  let timeBaselineY := addrBottomY - addrBlockH - gapMetaToAddr in
  let timeW := measureText (timeTpl timeFont) timeVal in
  let gapX := clamp (Math_round (inject_Z BASE * 0.018)) 8 22 in
  let lineX := (inject_Z leftX + timeW + inject_Z gapX)%Q in
  let asc := 0.80%Q in
  let desc := 0.10%Q in
  let lineTop := timeBaselineY - Math_round (inject_Z timeFont * asc * timeScaleY) in
  let lineBottom := timeBaselineY + Math_round (inject_Z timeFont * desc * timeScaleY) in
  let metaX := (lineX + inject_Z gapX)%Q in
  let metaMaxW := Qmax 80 (inject_Z rightLimit - metaX) in
  let longer := if (js_length dowText <=? js_length dateText)%nat then dateText else dowText in
  let metaFont := fitFontToWidth measureText longer metaTpl metaFont 10 metaMaxW in
  let metaPad := Math_round (inject_Z metaFont * 0.12) in
  let dateY := lineTop + metaFont + metaPad in
  let dowY := lineBottom - metaPad in
  let lineWidth := Z.max 2 (Math_round (inject_Z BASE * 0.004)) in
  mkLeftLayout leftMaxWidth leftX bottomPad rightLimit maxWidth addrFont addrLineH
    timeFont maxTimeW metaFont addrBottomY timeBaselineY timeW gapX lineX
    lineTop lineBottom lineWidth metaX metaMaxW dateY dowY.

(** The drawing calls of [drawLeftCluster], in the script's order: the
    stretched time, the divider, the two meta lines, the two address
    lines. *)
Definition leftClusterOps (W H : Z) (timeVal dateText dowText : string)
    (g : LeftLayout) : list DrawOp :=
  let BASE := Z.min W H in
  let shadow :=
    mkShadow "rgba(0,0,0,0.25)" (Math_round (inject_Z BASE * 0.004)) 0
             (Math_round (inject_Z BASE * 0.001)) in
  [ FillText timeVal (inject_Z (leftX g)) (inject_Z (timeBaselineY g) / timeScaleY)
      (font700 (timeFont g)) AlignLeft Alphabetic "#FFFFFF" shadow timeScaleY;
    StrokeLine (lineX g) (lineTop g) (lineBottom g) (lineWidth g) "#F2B644";
    FillText dateText (metaX g) (inject_Z (dateY g)) (font400 (metaFont g))
      AlignLeft Alphabetic "#FFFFFF" shadow 1;
    FillText dowText (metaX g) (inject_Z (dowY g)) (font400 (metaFont g))
      AlignLeft Alphabetic "#FFFFFF" shadow 1;
    FillText addr2 (inject_Z (leftX g)) (inject_Z (addrBottomY g)) (font400 (addrFont g))
      AlignLeft Bottom "#FFFFFF" shadow 1;
    FillText addr1 (inject_Z (leftX g)) (inject_Z (addrBottomY g - addrLineH g))
      (font400 (addrFont g)) AlignLeft Bottom "#FFFFFF" shadow 1 ].

(** [drawLeftCluster(ctx, W, H, reservedRight, timeVal, dateText, dowText)]. *)
Definition drawLeftCluster (W H reservedRight : Z) (timeVal dateText dowText : string)
    (c : Canvas) : Canvas :=
  let g := leftLayout W H reservedRight timeVal dateText dowText in
  mkCanvas (cv_width c) (cv_height c)
    (cv_ops c ++ leftClusterOps W H timeVal dateText dowText g)%list.

(** [drawAllOverlay()]. *)
Definition drawAllOverlay (st : Editor) : Editor :=
  if negb (hasImage st) then st
  else
    let st := drawBase st in
    let W := cv_width (cv st) in
    let H := cv_height (cv st) in
    let timeVal := or_else (timeValue st) "05:37" in
    let dateText := or_else (formatDateDDMMYYYY (dateValue st)) "05/01/2026" in
    let dowText := or_else (dowValue st) "Thứ Năm" in
    let '(c, reservedRight) := drawWatermark W H (cv st) in
    with_cv (drawLeftCluster W H reservedRight timeVal dateText dowText c) st.


End Layout.

(** Text metrics of a face whose every glyph is half an em wide: a
    concrete browser to evaluate the layout on. *)
Definition halfEmMetrics (f : Font) (text : string) : Q :=
  (inject_Z (font_px f) * inject_Z (Z.of_nat (js_length text)) / 2)%Q.

(** ** Listeners *)

(** A mouse or touch event, with the rectangle [getBoundingClientRect()]
    returns for the canvas when the event is handled. *)
Record PointerEvent := mkPointerEvent {
  clientX : Q;
  clientY : Q;
  touches : list (Q * Q);
  rectLeft : Q;
  rectTop : Q;
  rectWidth : Q;
  rectHeight : Q
}.

(** What reaches the script: the decoded image of a file or camera frame
    (with the date of the day, read by the handler), the clicks on the
    buttons, edits of the form controls and the pointer events. *)
Inductive Event :=
| ImageLoaded (i : Image) (today : string)
| RenderClick
| ResetClick
| DownloadClick
| ToggleMaskClick
| ClearMaskClick
| BrushInput (v : Z)
| FieldsInput (t d w : string)
| MouseDown (e : PointerEvent)
| MouseUp
| MouseMove (e : PointerEvent)
| TouchStart (e : PointerEvent)
| TouchEnd
| TouchMove (e : PointerEvent).

Section Listeners.

Variable measureText : Font -> string -> Q.

(** The browser's rasterizer for [arc] and [fill] with the style
    [rgba(255,255,255,0.95)]: the new value of the pixel at [(px, py)]
    for a disc of centre [(x, y)] and radius [r]. *)
Variable fillArcPixel : Q -> Q -> Q -> Z -> Z -> Pixel -> Pixel.

(** The [onload] handler installed by [loadImageFromUrl(url)], run when
    the image is decoded. *)
Definition loadImageFromUrl (i : Image) (today : string) (st : Editor) : Editor :=
  let st := with_img i st in
  let st := fitCanvasToImage (Z.of_N (naturalWidth i)) (Z.of_N (naturalHeight i)) st in
  let st := with_hasImage true st in
  let st := with_cv (draw (DrawImage (ImageSource i) None 0 0
                             (Some (cv_width (cv st), cv_height (cv st))) SourceOver)
                          (cv st)) st in
  let st := with_originalBitmap (Some (cv st)) st in
  let st := match dateValue st with
            | EmptyString => with_fields (timeValue st) today (dowValue st) st
            | _ => st
            end in
  setStatus ("Ảnh: " ++ pretty (cv_width (cv st)) ++ "x" ++ pretty (cv_height (cv st))) st.

Definition renderClick (st : Editor) : Editor :=
  if negb (hasImage st) then alert "Bạn chưa chọn ảnh." st
  else setStatus "Đã ghép overlay" (drawAllOverlay measureText st).

Definition resetClick (st : Editor) : Editor :=
  if negb (hasImage st) then st
  else
    let i := img st in
    let st := fitCanvasToImage (Z.of_N (naturalWidth i)) (Z.of_N (naturalHeight i)) st in
    let st := with_cv (draw (DrawImage (ImageSource i) None 0 0
                               (Some (cv_width (cv st), cv_height (cv st))) SourceOver)
                            (cv st)) st in
    let st := with_originalBitmap (Some (cv st)) st in
    let m := maskCanvas st in
    let st := with_maskCanvas (pc_clearRect 0 0 (pc_width m) (pc_height m) m) st in
    setStatus "Đã reset về ảnh gốc" st.

Definition downloadClick (st : Editor) : Editor :=
  if negb (hasImage st) then alert "Bạn chưa chọn ảnh." st
  else offerDownload "timemark_export.png" st.

Definition toggleMaskClick (st : Editor) : Editor :=
  with_maskEnabled (negb (maskEnabled st)) st.

Definition clearMaskClick (st : Editor) : Editor :=
  if negb (hasImage st) then st
  else
    let m := maskCanvas st in
    let st := with_maskCanvas (pc_clearRect 0 0 (pc_width m) (pc_height m) m) st in
    setStatus "Đã hoàn tác xóa" (drawBase st).

(** [getPos(e)]: display coordinates to canvas coordinates. *)
Definition getPos (e : PointerEvent) (st : Editor) : Q * Q :=
  let scaleX := (inject_Z (cv_width (cv st)) / rectWidth e)%Q in
  let scaleY := (inject_Z (cv_height (cv st)) / rectHeight e)%Q in
  let '(cx, cy) := match touches e with
                   | t :: _ => t
                   | [] => (clientX e, clientY e)
                   end in
  ((cx - rectLeft e) * scaleX, (cy - rectTop e) * scaleY)%Q.

(** [paint(e)]. *)
Definition paint (e : PointerEvent) (st : Editor) : Editor :=
  if negb (maskEnabled st) || negb (hasImage st) || negb (isPainting st) then st
  else
    let p := getPos e st in
    let size := brushValue st in
    let m := maskCanvas st in
    let m := mkPixelCanvas (pc_width m) (pc_height m)
               (imap (fun i px =>
                        fillArcPixel p.1 p.2 (inject_Z size / 2)
                          (Z.of_nat i mod pc_width m) (Z.of_nat i / pc_width m) px)
                     (pc_data m)) in
    drawBase (with_maskCanvas m st).

(** The listener bound to each event. *)
Definition handle (ev : Event) (st : Editor) : Editor :=
  match ev with
  | ImageLoaded i today => loadImageFromUrl i today st
  | RenderClick => renderClick st
  | ResetClick => resetClick st
  | DownloadClick => downloadClick st
  | ToggleMaskClick => toggleMaskClick st
  | ClearMaskClick => clearMaskClick st
  | BrushInput v => with_brushValue v st
  | FieldsInput t d w => with_fields t d w st
  | MouseDown e | TouchStart e => paint e (with_isPainting true st)
  | MouseUp | TouchEnd => with_isPainting false st
  | MouseMove e | TouchMove e => paint e st
  end.

(** The states the page can be in. *)
Inductive reachable : Editor -> Prop :=
| reach_initial : reachable initial
| reach_handle st ev : reachable st -> reachable (handle ev st).

End Listeners.

(** A rasterizer without anti-aliasing: a pixel whose centre lies in the
    disc becomes opaque white at alpha 242 (0.95 of 255, a pixel already
    painted keeps the larger alpha). *)
Definition hardDisc (x y r : Q) (px py : Z) (p : Pixel) : Pixel :=
  let dx := (inject_Z px + 0.5 - x)%Q in
  let dy := (inject_Z py + 0.5 - y)%Q in
  if Qle_bool (dx * dx + dy * dy) (r * r)
  then mkPixel 255 255 255 (Z.max 242 (alpha p))
  else p.

(** ** The admin endpoint *)

(** A row of the [users] table.  The column [username] is declared
    [UNIQUE], the column [role] is checked to be ['admin'] or ['user']. *)
Record UserRow := mkUserRow {
  u_id : Z;
  u_username : string;
  u_password_hash : string;
  u_role : string
}.

(** What the login handler stores in the Flask session: an integer under
    ["uid"], strings under ["username"] and ["role"]. *)
Inductive SessionValue :=
| SInt (n : Z)
| SStr (s : string).

Global Instance SessionValue_eq_dec : EqDecision SessionValue.
Proof. solve_decision. Defined.

Record Request := mkRequest {
  path : string;
  form : gmap string string
}.

Inductive Response :=
| Redirect (location : string)
| Forbidden.

(** A handler returns a response or lets an exception escape. *)
Inductive Outcome :=
| Returned (r : Response)
| Raised (exn : string).

Section AdminEndpoint.

(** Python's [str.strip()] and [int(s)] ([None] where [int] raises
    [ValueError]). *)
Variable strip : string -> string.
Variable int : string -> option Z.

(** [request.form.get(k)], with the empty string for a missing field. *)
Definition form_get_or_empty (req : Request) (k : string) : string :=
  match form req !! k with
  | Some v => v
  | None => EmptyString
  end.

(** [SELECT role FROM users WHERE username=?], first row. *)
Definition select_role (db : list UserRow) (username : string) : option string :=
  u_role <$> List.find (fun u => bool_decide (u_username u = username)) db.

(** [SELECT COUNT( * ) FROM users WHERE role='admin']. *)
Definition count_admins (db : list UserRow) : nat :=
  length (filter (fun u => u_role u = "admin") db).

(** [DELETE FROM users WHERE username=?]. *)
Definition delete_user (username : string) (db : list UserRow) : list UserRow :=
  filter (fun u => u_username u ≠ username) db.

(** The body of [admin_delete_user]. *)
Definition admin_delete_user_body (req : Request) (session : gmap string SessionValue)
    (db : list UserRow) : Outcome * gmap string SessionValue * list UserRow :=
  let username := strip (form_get_or_empty req "username") in
  let uid := form req !! "uid" in
  match username with
  | EmptyString => (Returned (Redirect "/admin"), session, db)
  | _ =>
      let target := select_role db username in
      if bool_decide (target = Some "admin") && (count_admins db <=? 1)%nat
      then (Returned (Redirect "/admin"), session, db)
      else
        let db := delete_user username db in
        match uid with
        | Some (String c u) =>
            match int (String c u) with
            | Some n =>
                if bool_decide (session !! "uid" = Some (SInt n))
                then (Returned (Redirect "/login"), ∅, db)
                else (Returned (Redirect "/admin"), session, db)
            | None => (Raised "ValueError", session, db)
            end
        | _ => (Returned (Redirect "/admin"), session, db)
        end
  end.

(** The decorator [admin_required]. *)
Definition admin_required
    (fn : Request -> gmap string SessionValue -> list UserRow ->
          Outcome * gmap string SessionValue * list UserRow)
    (req : Request) (session : gmap string SessionValue) (db : list UserRow)
    : Outcome * gmap string SessionValue * list UserRow :=
  match session !! "uid" with
  | None => (Returned (Redirect ("/login?next=" ++ path req)), session, db)
  | Some _ =>
      if bool_decide (session !! "role" = Some (SStr "admin"))
      then fn req session db
      else (Returned Forbidden, session, db)
  end.

(** [POST /admin/delete_user]. *)
Definition admin_delete_user := admin_required admin_delete_user_body.

(** The request carries, in its [uid] field, the id the session is
    logged in under: the form of one's own row on the admin page. *)
Definition own_account (req : Request) (session : gmap string SessionValue) : Prop :=
  ∃ u n, form req !! "uid" = Some u ∧ u ≠ EmptyString ∧ int u = Some n ∧
         session !! "uid" = Some (SInt n).

End AdminEndpoint.

(** ** Vocabulary of the statements *)

(** Number of occurrences of a character in a string. *)
Fixpoint count_char (c : ascii) (s : string) : nat :=
  match s with
  | EmptyString => 0%nat
  | String c' s' => ((if Ascii.eqb c' c then 1 else 0) + count_char c s')%nat
  end.

Definition is_digit (c : ascii) : bool :=
  (48 <=? N_of_ascii c)%N && (N_of_ascii c <=? 57)%N.

Fixpoint all_digits (s : string) : bool :=
  match s with
  | EmptyString => true
  | String c s' => is_digit c && all_digits s'
  end.

(** A well-formed ISO date: four digits, two digits, two digits. *)
Definition iso_date (y m d : string) : Prop :=
  all_digits y = true ∧ String.length y = 4%nat
  ∧ all_digits m = true ∧ String.length m = 2%nat
  ∧ all_digits d = true ∧ String.length d = 2%nat.

(** A pixel canvas whose buffer has one pixel for each position. *)
Definition pc_wf (c : PixelCanvas) : Prop :=
  0 <= pc_width c ∧ 0 <= pc_height c
  ∧ length (pc_data c) = Z.to_nat (pc_width c * pc_height c).

(** A canvas of the given size nobody has drawn on. *)
Definition blankPixelCanvas (w h : Z) : PixelCanvas :=
  mkPixelCanvas w h (blankPixels w h).

(** The visible canvas showing the image alone, scaled to the canvas. *)
Definition sharpBase (st : Editor) : Canvas :=
  mkCanvas (cv_width (cv st)) (cv_height (cv st))
    [DrawImage (ImageSource (img st)) None 0 0
       (Some (cv_width (cv st), cv_height (cv st))) SourceOver].

(** The mask has the size of the visible canvas. *)
Definition mask_matches_canvas (st : Editor) : Prop :=
  pc_width (maskCanvas st) = cv_width (cv st)
  ∧ pc_height (maskCanvas st) = cv_height (cv st)
  ∧ pc_wf (maskCanvas st).

(** Every pixel of the mask is transparent black. *)
Definition mask_blank (st : Editor) : Prop :=
  Forall (fun p => p = transparent) (pc_data (maskCanvas st)).

(** What every state of the page satisfies: the mask has the size of the
    canvas, and is untouched as long as no image is loaded. *)
Definition editor_inv (st : Editor) : Prop :=
  mask_matches_canvas st ∧ (hasImage st = false -> mask_blank st).

(** A two by two image, a pointer event at the centre of a canvas shown at
    its true size, and the page after loading that image, switching the
    brush on and pressing the mouse button there. *)
Definition tinyImage : Image :=
  mkImage 2 2 [mkPixel 10 20 30 255; mkPixel 40 50 60 255;
               mkPixel 70 80 90 255; mkPixel 15 25 35 255].

Definition centreClick : PointerEvent := mkPointerEvent 1 1 [] 0 0 2 2.

Definition loadedPage : Editor := loadImageFromUrl tinyImage "2026-01-05" initial.

Definition paintedPage : Editor :=
  handle halfEmMetrics hardDisc (MouseDown centreClick)
    (handle halfEmMetrics hardDisc ToggleMaskClick
       (handle halfEmMetrics hardDisc (ImageLoaded tinyImage "2026-01-05") initial)).

(** The canvas, the mask and the overlay fields of [st'] are those of [st]. *)
Definition same_content (st st' : Editor) : Prop :=
  cv st' = cv st ∧ maskCanvas st' = maskCanvas st ∧ img st' = img st
  ∧ hasImage st' = hasImage st
  ∧ timeValue st' = timeValue st ∧ dateValue st' = dateValue st
  ∧ dowValue st' = dowValue st.

(** The prompt to import an image first. *)
Definition importPrompt : string := "Bạn chưa chọn ảnh.".

(** The page as served, after the brush is switched on. *)
Definition brushOnPage : Editor := handle halfEmMetrics hardDisc ToggleMaskClick initial.

(** The texts a canvas shows, in drawing order. *)
Definition textOf (op : DrawOp) : option string :=
  match op with
  | FillText text _ _ _ _ _ _ _ _ => Some text
  | _ => None
  end.

Definition textsDrawn (c : Canvas) : list string := omap textOf (cv_ops c).

(** The loaded page after the user sets the time to noon, empties the date
    and picks Monday. *)
Definition noDatePage : Editor :=
  handle halfEmMetrics hardDisc (FieldsInput "12:00" EmptyString "Thứ Hai") loadedPage.








(** ** A concrete deployment of the admin endpoint *)

(** [int] on the decimal strings the admin page writes in its forms. *)
Fixpoint decimalValue (acc : Z) (s : string) : option Z :=
  match s with
  | EmptyString => Some acc
  | String c s' =>
      if is_digit c
      then decimalValue (10 * acc + Z.of_N (N_of_ascii c) - 48) s'
      else None
  end.

Definition decimalInt (s : string) : option Z :=
  match s with
  | EmptyString => None
  | _ => decimalValue 0 s
  end.

(** [strip] on strings without blanks around them. *)
Definition noBlanks (s : string) : string := s.

Definition twoAdmins : list UserRow :=
  [ mkUserRow 1 "admin" "pbkdf2:1" "admin";
    mkUserRow 2 "root2" "pbkdf2:2" "admin";
    mkUserRow 3 "user" "pbkdf2:3" "user" ].

(** The second admin, logged in, deletes the own row from the admin page. *)
Definition root2Session : gmap string SessionValue :=
  <["uid" := SInt 2]> (<["username" := SStr "root2"]> (<["role" := SStr "admin"]> ∅)).

Definition deleteRoot2 : Request :=
  mkRequest "/admin/delete_user" (<["username" := "root2"]> (<["uid" := "2"]> ∅)).

(** The page after the painted one is rendered, and a run of pointer moves
    for the examples. *)
Definition renderedPage : Editor :=
  handle halfEmMetrics hardDisc RenderClick paintedPage.

Definition someMoves : list PointerEvent :=
  [centreClick; mkPointerEvent 0 0 [(1, 1)%Q] 0 0 2 2].

(** The point [getPos] reads from an event: the first touch when there is
    one, the mouse position otherwise. *)
Definition eventPoint (e : PointerEvent) : Q * Q :=
  match touches e with
  | t :: _ => t
  | [] => (clientX e, clientY e)
  end.

(** A left-aligned text that starts at [limit] or right of it. *)
Definition startsRightOf (limit : Q) (op : DrawOp) : Prop :=
  match op with
  | FillText _ x _ _ AlignLeft _ _ _ _ => (limit <= x)%Q
  | _ => True
  end.

(** A text set in a font of [lo] to [hi] pixels. *)
Definition fontWithin (lo hi : Z) (op : DrawOp) : Prop :=
  match op with
  | FillText _ _ _ f _ _ _ _ _ => lo <= font_px f <= hi
  | _ => True
  end.

(** The drawing calls of the watermark on a blank canvas. *)
Definition watermarkOps (measureText : Font -> string -> Q) (W H : Z) : list DrawOp :=
  cv_ops (drawWatermark measureText W H (mkCanvas W H [])).1.

(** A tap on a canvas of 1000 by 500 pixels shown at half its size. *)
Definition halfSizePage : Editor := with_cv (mkCanvas 1000 500 []) initial.

Definition tapEvent : PointerEvent := mkPointerEvent 0 0 [(260, 135)%Q] 10 10 500 250.

(** ** Accounts: the default users, login, logout and user creation *)

(** What an [INSERT] draws from outside the program: the id SQLite gives
    the new row and the salt [generate_password_hash] picks. *)
Record Fresh := mkFresh { new_id : Z; new_salt : string }.

(** The routes that change the session or the table. *)
Inductive Route :=
| PostLogin
| GetLogout
| PostCreateUser
| PostDeleteUser.

Definition loginFailed : string :=
  "/login?msg=Sai+t%C3%A0i+kho%E1%BA%A3n+ho%E1%BA%B7c+m%E1%BA%ADt+kh%E1%BA%A9u&next=".

Definition loggedOut : string := "/login?msg=%C4%90%C3%A3+%C4%91%C4%83ng+xu%E1%BA%A5t".

Section Accounts.

Variable strip : string -> string.
Variable int : string -> option Z.

(** werkzeug's [generate_password_hash], with the salt it draws made an
    argument, and [check_password_hash]. *)
Variable generate_password_hash : string -> string -> string.
Variable check_password_hash : string -> string -> bool.

(** The values of [DEFAULT_ADMIN_PASSWORD] and [DEFAULT_USER_PASSWORD],
    or their defaults. *)
Variable adminPassword : string.
Variable userPassword : string.

(** [SELECT ... FROM users WHERE username=?], first row. *)
Definition select_user (db : list UserRow) (username : string) : option UserRow :=
  List.find (fun u => bool_decide (u_username u = username)) db.

(** [INSERT INTO users(username,password_hash,role) VALUES(?,?,?)]: [None]
    is [sqlite3.IntegrityError], raised when the name is taken or the role
    fails the [CHECK]. *)
Definition insert_user (f : Fresh) (username password role : string) (db : list UserRow)
    : option (list UserRow) :=
  if bool_decide (username ∈ u_username <$> db) then None
  else if bool_decide (role = "admin" ∨ role = "user")
       then Some (db ++ [mkUserRow (new_id f) username
                           (generate_password_hash (new_salt f) password) role])%list
       else None.

(** [ensure_user(username, password, role)] of [init_db]: the exception that
    escapes, if any, and the table. *)
Definition ensure_user (f : Fresh) (username password role : string) (db : list UserRow)
    : option string * list UserRow :=
  match select_user db username with
  | None =>
      match insert_user f username password role db with
      | Some db' => (None, db')
      | None => (Some "IntegrityError", db)
      end
  | Some _ => (None, db)
  end.

(** [init_db()], run before every request. *)
Definition init_db (f1 f2 : Fresh) (db : list UserRow) : option string * list UserRow :=
  match ensure_user f1 "admin" adminPassword "admin" db with
  | (Some exn, db) => (Some exn, db)
  | (None, db) => ensure_user f2 "user" userPassword "user" db
  end.

(** The decorator [login_required]. *)
Definition login_required
    (fn : Request -> gmap string SessionValue -> list UserRow ->
          Outcome * gmap string SessionValue * list UserRow)
    (req : Request) (session : gmap string SessionValue) (db : list UserRow)
    : Outcome * gmap string SessionValue * list UserRow :=
  match session !! "uid" with
  | None => (Returned (Redirect ("/login?next=" ++ path req)), session, db)
  | Some _ => fn req session db
  end.

(** [request.form.get("next") or "/"]. *)
Definition form_next (req : Request) : string :=
  match form req !! "next" with
  | Some (String c s) => String c s
  | _ => "/"
  end.

(** [login_post()]: the response, the session, and whether
    [session.permanent] was set. *)
Definition login_post (req : Request) (session : gmap string SessionValue)
    (db : list UserRow) : Outcome * gmap string SessionValue * bool :=
  let username := strip (form_get_or_empty req "username") in
  let password := form_get_or_empty req "password" in
  let nxt := form_next req in
  match select_user db username with
  | Some row =>
      if check_password_hash (u_password_hash row) password
      then (Returned (Redirect nxt),
            <["role" := SStr (u_role row)]>
              (<["username" := SStr (u_username row)]>
                 (<["uid" := SInt (u_id row)]> session)),
            true)
      else (Returned (Redirect (loginFailed ++ nxt)), session, false)
  | None => (Returned (Redirect (loginFailed ++ nxt)), session, false)
  end.

(** [logout()]. *)
Definition logout (session : gmap string SessionValue)
    : Outcome * gmap string SessionValue :=
  (Returned (Redirect loggedOut), ∅).

(** The body of [admin_create_user]. *)
Definition admin_create_user_body (f : Fresh) (req : Request)
    (session : gmap string SessionValue) (db : list UserRow)
    : Outcome * gmap string SessionValue * list UserRow :=
  let username := strip (form_get_or_empty req "username") in
  let password := form_get_or_empty req "password" in
  let role := "user" in
  match username, password with
  | EmptyString, _ => (Returned (Redirect "/admin"), session, db)
  | _, EmptyString => (Returned (Redirect "/admin"), session, db)
  | _, _ =>
      match insert_user f username password role db with
      | Some db' => (Returned (Redirect "/admin"), session, db')
      | None => (Returned (Redirect "/admin"), session, db)
      end
  end.

(** [POST /admin/create_user]. *)
Definition admin_create_user (f : Fresh) := admin_required (admin_create_user_body f).

(** A request to one of the routes: [init_db] first, then the handler. *)
Definition serve (f1 f2 f : Fresh) (r : Route) (req : Request)
    (session : gmap string SessionValue) (db : list UserRow)
    : Outcome * gmap string SessionValue * list UserRow :=
  match init_db f1 f2 db with
  | (Some exn, db) => (Raised exn, session, db)
  | (None, db) =>
      match r with
      | PostLogin => let '(out, session, _) := login_post req session db in (out, session, db)
      | GetLogout => let '(out, session) := logout session in (out, session, db)
      | PostCreateUser => admin_create_user f req session db
      | PostDeleteUser => admin_delete_user strip int req session db
      end
  end.

(** The tables a deployment that starts without users can come to hold. *)
Inductive served : list UserRow -> Prop :=
| served_fresh : served []
| served_request db f1 f2 f r req session :
    served db -> served (serve f1 f2 f r req session db).2.

End Accounts.

(** A concrete deployment: hashes that keep the salt and the password
    apart by a dollar sign. *)
Definition saltedHash (salt password : string) : string := salt ++ "$" ++ password.

Fixpoint afterDollar (s : string) : string :=
  match s with
  | EmptyString => EmptyString
  | String c s' => if Ascii.eqb c "$"%char then s' else afterDollar s'
  end.

Definition saltedCheck (hash password : string) : bool :=
  bool_decide (afterDollar hash = password).

Definition adminSession : gmap string SessionValue :=
  <["uid" := SInt 1]> (<["username" := SStr "admin"]> (<["role" := SStr "admin"]> ∅)).

Definition plainSession : gmap string SessionValue :=
  <["uid" := SInt 3]> (<["username" := SStr "user"]> (<["role" := SStr "user"]> ∅)).

Definition createAlice : Request :=
  mkRequest "/admin/create_user" (<["username" := "alice"]> (<["password" := "s3cret"]> ∅)).

Definition loginAlice : Request :=
  mkRequest "/login" (<["username" := "alice"]> (<["password" := "s3cret"]> ∅)).

Definition deleteUserJunkUid : Request :=
  mkRequest "/admin/delete_user" (<["username" := "user"]> (<["uid" := "abc"]> ∅)).

(** The table of a deployment that started without users: unique names,
    and one admin, the default account. *)
Definition single_admin (db : list UserRow) : Prop :=
  NoDup (u_username <$> db)
  ∧ "admin" ∈ u_username <$> db
  ∧ ∀ row, row ∈ db -> (u_role row = "admin" <-> u_username row = "admin").

Definition deleteAdmin : Request :=
  mkRequest "/admin/delete_user" (<["username" := "admin"]> (<["uid" := "1"]> ∅)).


Definition loginUser : Request :=
  mkRequest "/login" (<["username" := "user"]> (<["password" := "user123"]> ∅)).

Definition freshOne : Fresh := mkFresh 1 "s1".
Definition freshTwo : Fresh := mkFresh 2 "s2".
Definition freshThree : Fresh := mkFresh 3 "s3".

(** The table after the first request of a deployment without users. *)
Definition firstTable : list UserRow :=
  (init_db saltedHash "admin123" "user123" freshOne freshTwo []).2.

(** The table after a first request that asks to delete the default
    admin. *)
Definition afterDeleteAttempt : list UserRow :=
  (serve noBlanks decimalInt saltedHash saltedCheck "admin123" "user123"
     freshOne freshTwo freshThree PostDeleteUser deleteAdmin adminSession []).2.

(** The table with Alice, created by the admin. *)
Definition tableWithAlice : list UserRow :=
  (admin_create_user noBlanks saltedHash freshThree createAlice adminSession firstTable).2.

(** Hashes that put the salt after the password, and the check that reads
    the password back. *)
Definition tailSaltHash (salt password : string) : string := password ++ "$" ++ salt.

Definition headCheck (hash password : string) : bool := String.prefix (password ++ "$") hash.

(** * Properties *)

(** ** The text fitter *)

Section FitterFacts.

Variable measureText : Font -> string -> Q.
Variable text : string.
Variable tpl : Z -> Font.
Variable minSize : Z.

(** The countdown is the script's loop: one test of [size > minSize] and
    one measurement a turn. *)
Lemma fitFrom_unfold maxWidth size :
  fitFrom measureText text tpl minSize maxWidth size =
    if minSize <? size
    then if fits measureText text tpl maxWidth size then size else fitFrom measureText text tpl minSize maxWidth (size - 1)
    else minSize.
Proof.
  unfold fitFrom. destruct (Z.ltb_spec minSize size) as [Hlt | Hge].
  - replace (Z.to_nat (size - minSize)) with (S (Z.to_nat (size - 1 - minSize))) by lia.
    reflexivity.
  - replace (Z.to_nat (size - minSize)) with O by lia. reflexivity.
Qed.

Lemma fitLoop_bounds maxWidth n size :
  minSize <= size - Z.of_nat n ->
  minSize <= fitLoop measureText text tpl minSize maxWidth n size <= size.
Proof.
  revert size. induction n as [| n IH]; intros size Hn; simpl.
  - lia.
  - destruct (fits measureText text tpl maxWidth size); [lia |].
    specialize (IH (size - 1)). lia.
Qed.

Lemma fits_widen maxWidth maxWidth' size :
  (maxWidth <= maxWidth')%Q ->
  fits measureText text tpl maxWidth size = true -> fits measureText text tpl maxWidth' size = true.
Proof.
  unfold fits. rewrite !Qle_bool_iff. intros Hle Hfit.
  eapply Qle_trans; eassumption.
Qed.

Lemma fitLoop_monotone maxWidth maxWidth' n size :
  (maxWidth <= maxWidth')%Q ->
  minSize <= size - Z.of_nat n ->
  fitLoop measureText text tpl minSize maxWidth n size <= fitLoop measureText text tpl minSize maxWidth' n size.
Proof.
  intros Hle. revert size. induction n as [| n IH]; intros size Hn; simpl.
  - lia.
  - destruct (fits measureText text tpl maxWidth size) eqn:Hfit.
    + rewrite (fits_widen _ _ _ Hle Hfit). lia.
    + destruct (fits measureText text tpl maxWidth' size).
      * pose proof (fitLoop_bounds maxWidth n (size - 1)). lia.
      * apply IH. lia.
Qed.

(** A result above the floor is a size at which the text fits. *)
Lemma fitLoop_fits maxWidth n size :
  fitLoop measureText text tpl minSize maxWidth n size ≠ minSize ->
  fits measureText text tpl maxWidth (fitLoop measureText text tpl minSize maxWidth n size) = true.
Proof.
  revert size. induction n as [| n IH]; intros size Hne; simpl in *.
  - congruence.
  - destruct (fits measureText text tpl maxWidth size) eqn:Hfit; [exact Hfit | auto].
Qed.

(** No size skipped on the way down fits. *)
Lemma fitLoop_largest maxWidth n size s :
  fitLoop measureText text tpl minSize maxWidth n size < s <= size ->
  size - Z.of_nat n <= minSize ->
  fits measureText text tpl maxWidth s = false.
Proof.
  revert size. induction n as [| n IH]; intros size Hs Hn; simpl in *.
  - lia.
  - destruct (fits measureText text tpl maxWidth size) eqn:Hfit; [lia |].
    destruct (Z.eq_dec s size) as [-> | Hne]; [exact Hfit |].
    apply (IH (size - 1)); lia.
Qed.

End FitterFacts.

Lemma fitFontToWidth_fits measureText text tpl startSize minSize maxWidth :
  fits measureText text tpl maxWidth minSize = true ->
  (measureText (tpl (fitFontToWidth measureText text tpl startSize minSize maxWidth)) text
     <= maxWidth)%Q.
Proof.
  intros Hmin. apply Qle_bool_iff. fold (fits measureText text tpl maxWidth).
  unfold fitFontToWidth, fitFrom.
  destruct (Z.eq_dec
    (fitLoop measureText text tpl minSize maxWidth (Z.to_nat (startSize - minSize)) startSize)
    minSize) as [Heq | Hne].
  - rewrite Heq. exact Hmin.
  - apply fitLoop_fits. exact Hne.
Qed.

(** C2 — [fitFontToWidth] returns a size between [minSize] and [startSize]
    whenever [minSize <= startSize], and a larger [maxWidth] never gives a
    smaller size, whatever the text, the font template and the metrics. *)
Theorem fitFontToWidth_bounds_monotone
    (measureText : Font -> string -> Q) (text : string) (tpl : Z -> Font)
    (startSize minSize : Z) (maxWidth maxWidth' : Q) :
  minSize <= startSize ->
  (minSize <= fitFontToWidth measureText text tpl startSize minSize maxWidth <= startSize)
  ∧ ((maxWidth <= maxWidth')%Q ->
     fitFontToWidth measureText text tpl startSize minSize maxWidth
     <= fitFontToWidth measureText text tpl startSize minSize maxWidth').
Proof.
  intros Hsizes. unfold fitFontToWidth, fitFrom. split.
  - apply fitLoop_bounds. lia.
  - intros Hle. apply fitLoop_monotone; [exact Hle | lia].
Qed.

Lemma fitFontToWidth_bounds_monotone_witness :
  (12 <= fitFontToWidth halfEmMetrics fullText font700 44 12 70 <= 44)
  ∧ ((70 <= 200)%Q ->
     fitFontToWidth halfEmMetrics fullText font700 44 12 70
     <= fitFontToWidth halfEmMetrics fullText font700 44 12 200).
Proof.
  apply (fitFontToWidth_bounds_monotone halfEmMetrics fullText font700 44 12 70 200).
  lia.
Defined.

(** ** Rounding *)

Global Instance Math_round_proper : Proper (Qeq ==> eq) Math_round.
Proof. intros x y Hxy. unfold Math_round. now rewrite Hxy. Qed.

(** Rounding a quotient of integers, in integer arithmetic. *)
Lemma Math_round_quotient (a d : Z) :
  0 < d -> Math_round (inject_Z a / inject_Z d) = (2 * a + d) / (2 * d).
Proof.
  intros Hd. destruct d as [| p | p]; try lia.
  unfold Math_round, Qfloor, Qplus, Qdiv, Qmult, Qinv, inject_Z. simpl.
  f_equal; lia.
Qed.

Lemma Math_round_scaled (n k d : Z) :
  0 < d ->
  Math_round (inject_Z n * (inject_Z k / inject_Z d)) = (2 * (n * k) + d) / (2 * d).
Proof.
  intros Hd. rewrite <- Math_round_quotient by exact Hd.
  apply Math_round_proper. rewrite inject_Z_mult. field.
  intros H0. unfold Qeq in H0. simpl in H0. lia.
Qed.

Lemma Math_round_monotone (x y : Q) : (x <= y)%Q -> Math_round x <= Math_round y.
Proof.
  intros Hxy. unfold Math_round. apply Qfloor_resp_le.
  apply Qplus_le_l. exact Hxy.
Qed.

Lemma Math_round_inject (z : Z) : Math_round (inject_Z z) = z.
Proof.
  unfold Math_round, Qfloor, Qplus, inject_Z. simpl.
  symmetry. apply (Z.div_unique_pos _ _ z 1); lia.
Qed.

Lemma half_up_bounds (a d : Z) :
  0 < d -> 2 * Z.abs ((2 * a + d) / (2 * d) * d - a) <= d.
Proof.
  intros Hd. pose proof (Z.div_mod (2 * a + d) (2 * d) ltac:(lia)) as Hdm.
  pose proof (Z.mod_pos_bound (2 * a + d) (2 * d) ltac:(lia)) as Hm.
  lia.
Qed.

Lemma half_up_exact (k d : Z) : 0 < d -> (2 * (d * k) + d) / (2 * d) = k.
Proof. intros Hd. symmetry. apply (Z.div_unique_pos _ _ k d); lia. Qed.

Lemma half_up_monotone (a b d : Z) :
  0 < d -> a <= b -> (2 * a + d) / (2 * d) <= (2 * b + d) / (2 * d).
Proof. intros Hd Hab. apply Z.div_le_mono; lia. Qed.

(** ** Canvas sizing *)

Lemma capRatio_wide (w h : Z) :
  0 < h <= w -> (capRatio w h == inject_Z MAX_DIM / inject_Z w)%Q.
Proof.
  intros Hwh. unfold capRatio.
  destruct (Z.eqb_spec w 0); [lia |]. destruct (Z.eqb_spec h 0); [lia |].
  apply Q.min_l. destruct w as [| p | p], h as [| q | q]; try lia.
  unfold Qle, Qdiv, Qmult, Qinv, inject_Z, MAX_DIM. simpl. lia.
Qed.

Lemma capRatio_tall (w h : Z) :
  0 < w <= h -> (capRatio w h == inject_Z MAX_DIM / inject_Z h)%Q.
Proof.
  intros Hwh. unfold capRatio.
  destruct (Z.eqb_spec w 0); [lia |]. destruct (Z.eqb_spec h 0); [lia |].
  apply Q.min_r. destruct w as [| p | p], h as [| q | q]; try lia.
  unfold Qle, Qdiv, Qmult, Qinv, inject_Z, MAX_DIM. simpl. lia.
Qed.

(** The size [fitCanvasToImage] gives the visible canvas. *)
Lemma fitCanvasToImage_cv (w h : Z) (st : Editor) :
  cv (fitCanvasToImage w h st) =
    if (MAX_DIM <? w) || (MAX_DIM <? h)
    then mkCanvas (Math_round (inject_Z w * capRatio w h))
                  (Math_round (inject_Z h * capRatio w h)) []
    else mkCanvas w h [].
Proof. unfold fitCanvasToImage. destruct ((MAX_DIM <? w) || (MAX_DIM <? h)); reflexivity. Qed.

(** The two sides after scaling by the ratio of the longer one. *)
Lemma capped_sides (a b : Z) :
  0 < b <= a -> MAX_DIM < a ->
  Math_round (inject_Z a * (inject_Z MAX_DIM / inject_Z a)) = MAX_DIM
  ∧ Math_round (inject_Z b * (inject_Z MAX_DIM / inject_Z a)) <= MAX_DIM
  ∧ 2 * Z.abs (Math_round (inject_Z b * (inject_Z MAX_DIM / inject_Z a)) * a - MAX_DIM * b) <= a.
Proof.
  intros Hab Ha. rewrite !Math_round_scaled by lia. split; [| split].
  - apply half_up_exact. lia.
  - rewrite <- (half_up_exact MAX_DIM a) at 2 by lia.
    apply half_up_monotone; [lia |]. unfold MAX_DIM in *. nia.
  - replace (MAX_DIM * b) with (b * MAX_DIM) by lia. apply half_up_bounds. lia.
Qed.

(** C3 — an image with a side over 2500 px gets a canvas whose longer side
    is exactly 2500 and whose sides are the source's, scaled by
    2500 / longer side and rounded (each within half a pixel of the exact
    value); an image with both sides at most 2500 keeps its size. *)
Theorem fitCanvasToImage_cap (w h : Z) (st : Editor) :
  0 < w -> 0 < h ->
  let c := cv (fitCanvasToImage w h st) in
  let longer := Z.max w h in
  (MAX_DIM < w ∨ MAX_DIM < h ->
     Z.max (cv_width c) (cv_height c) = MAX_DIM
     ∧ 2 * Z.abs (cv_width c * longer - MAX_DIM * w) <= longer
     ∧ 2 * Z.abs (cv_height c * longer - MAX_DIM * h) <= longer)
  ∧ (w <= MAX_DIM ∧ h <= MAX_DIM -> cv_width c = w ∧ cv_height c = h).
Proof.
  intros Hw Hh c longer. subst c longer. rewrite fitCanvasToImage_cv. split.
  - intros Hbig.
    replace ((MAX_DIM <? w) || (MAX_DIM <? h)) with true
      by (symmetry; apply orb_true_iff; rewrite !Z.ltb_lt; exact Hbig).
    simpl cv_width. simpl cv_height.
    destruct (Z.le_ge_cases h w) as [Hle | Hle].
    + rewrite (capRatio_wide w h) by lia.
      destruct (capped_sides w h) as (Hlong & Hshort & Hnear); [lia | lia |].
      destruct (capped_sides w w) as (_ & _ & Hself); [lia | lia |].
      rewrite Hlong in *. rewrite (Z.max_l w h) by lia.
      split; [lia | split; [lia | exact Hnear]].
    + rewrite (capRatio_tall w h) by lia.
      destruct (capped_sides h w) as (Hlong & Hshort & Hnear); [lia | lia |].
      destruct (capped_sides h h) as (_ & _ & Hself); [lia | lia |].
      rewrite Hlong in *. rewrite (Z.max_r w h) by lia.
      split; [lia | split; [exact Hnear | lia]].
  - intros [Hw' Hh'].
    replace ((MAX_DIM <? w) || (MAX_DIM <? h)) with false; [split; reflexivity |].
    symmetry. apply orb_false_iff. rewrite !Z.ltb_ge. lia.
Qed.

Lemma fitCanvasToImage_cap_witness :
  let c := cv (fitCanvasToImage 4000 3000 initial) in
  (MAX_DIM < 4000 ∨ MAX_DIM < 3000 ->
     Z.max (cv_width c) (cv_height c) = MAX_DIM
     ∧ 2 * Z.abs (cv_width c * Z.max 4000 3000 - MAX_DIM * 4000) <= Z.max 4000 3000
     ∧ 2 * Z.abs (cv_height c * Z.max 4000 3000 - MAX_DIM * 3000) <= Z.max 4000 3000)
  ∧ (4000 <= MAX_DIM ∧ 3000 <= MAX_DIM -> cv_width c = 4000 ∧ cv_height c = 3000).
Proof. apply (fitCanvasToImage_cap 4000 3000 initial); lia. Defined.

(** ** Date formatting *)

Lemma split_length (sep : ascii) (s : string) :
  length (split sep s) = S (count_char sep s).
Proof.
  induction s as [| c s IH]; simpl; [reflexivity |].
  destruct (Ascii.eqb c sep); simpl.
  - now rewrite IH.
  - destruct (split sep s) as [| p ps] eqn:Hsplit; simpl in *; [discriminate | exact IH].
Qed.

Lemma split_without (sep : ascii) (s : string) :
  count_char sep s = 0%nat -> split sep s = [s].
Proof.
  induction s as [| c s IH]; simpl; [reflexivity |].
  destruct (Ascii.eqb c sep); simpl; [discriminate |].
  intros Hcount. now rewrite IH.
Qed.

Lemma split_app (sep : ascii) (a b : string) :
  count_char sep a = 0%nat ->
  split sep (a ++ String sep b) = a :: split sep b.
Proof.
  induction a as [| c a IH]; simpl.
  - intros _. now rewrite Ascii.eqb_refl.
  - destruct (Ascii.eqb c sep); simpl; [discriminate |].
    intros Hcount. now rewrite IH.
Qed.

Lemma digit_is_one_unit (c : ascii) : is_digit c = true -> units_of_byte c = 1%nat.
Proof.
  unfold is_digit, units_of_byte. intros Hd.
  apply andb_true_iff in Hd as [_ Hhi]. apply N.leb_le in Hhi.
  destruct (N.ltb_spec (N_of_ascii c) 128); [reflexivity | lia].
Qed.

Lemma digit_is_not_hyphen (c : ascii) : is_digit c = true -> Ascii.eqb c hyphen = false.
Proof.
  unfold is_digit. intros Hd. apply andb_true_iff in Hd as [Hlo _]. apply N.leb_le in Hlo.
  apply Ascii.eqb_neq. intros ->. vm_compute in Hlo. congruence.
Qed.

Lemma digits_have_no_hyphen (s : string) :
  all_digits s = true -> count_char hyphen s = 0%nat.
Proof.
  induction s as [| c s IH]; simpl; [reflexivity |].
  intros Hd. apply andb_true_iff in Hd as [Hc Hs].
  rewrite (digit_is_not_hyphen c Hc). simpl. auto.
Qed.

Lemma digits_js_length (s : string) :
  all_digits s = true -> js_length s = String.length s.
Proof.
  induction s as [| c s IH]; simpl; [reflexivity |].
  intros Hd. apply andb_true_iff in Hd as [Hc Hs].
  rewrite (digit_is_one_unit c Hc), IH by exact Hs. reflexivity.
Qed.

Lemma padStart_two_digits (s : string) :
  all_digits s = true -> String.length s = 2%nat -> padStart 2 "0"%char s = s.
Proof.
  intros Hd Hlen. unfold padStart. rewrite digits_js_length, Hlen by exact Hd. reflexivity.
Qed.

Lemma formatDate_of_parts (iso : string) :
  iso ≠ EmptyString ->
  formatDateDDMMYYYY iso =
    match split hyphen iso with
    | [y; m; d] => padStart 2 "0"%char d ++ "/" ++ padStart 2 "0"%char m ++ "/" ++ y
    | _ => EmptyString
    end.
Proof. destruct iso; [congruence | reflexivity]. Qed.

(** C4 — [formatDateDDMMYYYY "2026-01-05"] is ["05/01/2026"]; a well-formed
    ISO date [YYYY-MM-DD] comes out as [DD/MM/YYYY]; a string that does not
    hold exactly two hyphens gives the empty string. *)
Theorem formatDateDDMMYYYY_spec :
  formatDateDDMMYYYY "2026-01-05" = "05/01/2026"
  ∧ (∀ y m d : string, iso_date y m d ->
       formatDateDDMMYYYY (y ++ "-" ++ m ++ "-" ++ d) = d ++ "/" ++ m ++ "/" ++ y)
  ∧ (∀ s : string, count_char hyphen s ≠ 2%nat -> formatDateDDMMYYYY s = EmptyString).
Proof.
  split; [reflexivity | split].
  - intros y m d (Hy & Hylen & Hm & Hmlen & Hd & Hdlen).
    rewrite formatDate_of_parts by (destruct y; [discriminate | discriminate]).
    change (y ++ "-" ++ m ++ "-" ++ d) with (y ++ String hyphen (m ++ String hyphen d)).
    rewrite split_app by (apply digits_have_no_hyphen; exact Hy).
    rewrite split_app by (apply digits_have_no_hyphen; exact Hm).
    rewrite split_without by (apply digits_have_no_hyphen; exact Hd).
    now rewrite !padStart_two_digits.
  - intros s Hcount. destruct s as [| c s]; [reflexivity |].
    rewrite formatDate_of_parts by discriminate.
    pose proof (split_length hyphen (String c s)) as Hlen.
    destruct (split hyphen (String c s)) as [| p1 [| p2 [| p3 [| p4 ps]]]];
      try reflexivity.
    cbn [length] in Hlen. lia.
Qed.

Lemma formatDateDDMMYYYY_spec_witness :
  formatDateDDMMYYYY ("2024" ++ "-" ++ "02" ++ "-" ++ "29") = "29" ++ "/" ++ "02" ++ "/" ++ "2024"
  ∧ formatDateDDMMYYYY "2026-01" = EmptyString.
Proof.
  destruct formatDateDDMMYYYY_spec as (_ & Hiso & Hbad). split.
  - apply (Hiso "2024" "02" "29"). repeat split; reflexivity.
  - apply (Hbad "2026-01"). vm_compute. lia.
Defined.

(** ** The mask buffer *)

Lemma alphaScan_true (d : list Z) (n i : nat) :
  alphaScan d n i = true <->
  ∃ k a, (k < n)%nat ∧ d !! (i + 4 * k)%nat = Some a ∧ 0 < a.
Proof.
  revert i. induction n as [| n IH]; intros i; simpl.
  - split; [discriminate | intros (k & a & Hk & _); lia].
  - destruct (d !! i) as [a0 |] eqn:Hi.
    + destruct (Z.ltb_spec 0 a0) as [Hpos | Hnpos].
      * split; [intros _ | reflexivity].
        exists 0%nat, a0. rewrite Nat.add_0_r. split; [lia | auto].
      * rewrite IH. split.
        -- intros (k & a & Hk & Hlook & Ha). exists (S k), a.
           split; [lia |]. split; [| exact Ha].
           rewrite <- Hlook. f_equal. lia.
        -- intros (k & a & Hk & Hlook & Ha). destruct k as [| k].
           ++ rewrite Nat.add_0_r, Hi in Hlook. inversion Hlook. lia.
           ++ exists k, a. split; [lia |]. split; [| exact Ha].
              rewrite <- Hlook. f_equal. lia.
    + split; [discriminate |].
      intros (k & a & Hk & Hlook & Ha).
      apply lookup_lt_Some in Hlook. apply lookup_ge_None in Hi. lia.
Qed.

(** The alpha byte of pixel [j] sits at index [4 j + 3] of the image data. *)
Lemma imageData_alpha (data : list Pixel) (j : nat) :
  flat_map (fun p => [red p; green p; blue p; alpha p]) data !! (3 + 4 * j)%nat
  = alpha <$> data !! j.
Proof.
  revert j. induction data as [| p data IH]; intros j; simpl; [reflexivity |].
  destruct j as [| j]; simpl; [reflexivity |].
  rewrite <- IH. replace (j + S (j + S (j + S (j + 0))))%nat with (3 + 4 * j)%nat by lia.
  reflexivity.
Qed.

Lemma imageData_length (data : list Pixel) :
  length (flat_map (fun p => [red p; green p; blue p; alpha p]) data) = (4 * length data)%nat.
Proof. induction data as [| p data IH]; simpl; [reflexivity | rewrite IH; lia]. Qed.

Lemma alphaScan_pixels (data : list Pixel) :
  let d := flat_map (fun p => [red p; green p; blue p; alpha p]) data in
  alphaScan d (length d) 3 = true <-> ∃ p, p ∈ data ∧ 0 < alpha p.
Proof.
  intros d. rewrite alphaScan_true. split.
  - intros (k & a & Hk & Hlook & Ha). subst d. rewrite imageData_alpha in Hlook.
    destruct (data !! k) as [p |] eqn:Hp; [| discriminate].
    exists p. split; [eapply list_elem_of_lookup_2; exact Hp |].
    inversion Hlook. lia.
  - intros (p & Hin & Ha). apply list_elem_of_lookup_1 in Hin as [k Hk].
    exists k, (alpha p). subst d. rewrite imageData_alpha, Hk, imageData_length.
    apply lookup_lt_Some in Hk. split; [lia | split; [reflexivity | exact Ha]].
Qed.

Lemma maskHasSomething_zero_size (m : PixelCanvas) :
  pc_width m = 0 ∨ pc_height m = 0 -> maskHasSomething m = false.
Proof.
  intros Hz. unfold maskHasSomething.
  replace ((pc_width m =? 0) || (pc_height m =? 0)) with true; [reflexivity |].
  symmetry. apply orb_true_iff. rewrite !Z.eqb_eq. exact Hz.
Qed.

Lemma maskHasSomething_pixels (m : PixelCanvas) :
  pc_wf m -> (maskHasSomething m = true <-> ∃ p, p ∈ pc_data m ∧ 0 < alpha p).
Proof.
  intros (Hw & Hh & Hlen). unfold maskHasSomething.
  destruct ((pc_width m =? 0) || (pc_height m =? 0)) eqn:Hz.
  - apply orb_true_iff in Hz. rewrite !Z.eqb_eq in Hz.
    assert (pc_data m = []) as ->.
    { apply length_zero_iff_nil. rewrite Hlen. destruct Hz as [-> | ->]; lia. }
    split; [discriminate |]. intros (p & Hin & _). inversion Hin.
  - apply alphaScan_pixels.
Qed.

Lemma drawBase_sharp (st : Editor) :
  maskHasSomething (maskCanvas st) = false -> drawBase st = with_cv (sharpBase st) st.
Proof.
  intros Hnone. unfold drawBase. rewrite Hnone. unfold cv_clearRect.
  rewrite !Z.add_0_l, !Z.leb_refl. reflexivity.
Qed.

(** C6 — [maskHasSomething] answers true exactly when some pixel of the mask
    has a positive alpha, and false on a mask of zero width or height;
    when it answers false, [drawBase] leaves on the canvas the image drawn
    alone, without the blurred layer, and changes nothing else. *)
Theorem maskHasSomething_decides_blur :
  (∀ m : PixelCanvas, pc_wf m ->
     (maskHasSomething m = true <-> ∃ p, p ∈ pc_data m ∧ 0 < alpha p))
  ∧ (∀ m : PixelCanvas, pc_width m = 0 ∨ pc_height m = 0 -> maskHasSomething m = false)
  ∧ (∀ st : Editor, maskHasSomething (maskCanvas st) = false ->
       drawBase st = with_cv (sharpBase st) st).
Proof.
  split; [exact maskHasSomething_pixels |].
  split; [exact maskHasSomething_zero_size | exact drawBase_sharp].
Qed.

Lemma blankPixelCanvas_wf (w h : Z) : 0 <= w -> 0 <= h -> pc_wf (blankPixelCanvas w h).
Proof.
  intros Hw Hh. unfold pc_wf, blankPixelCanvas, blankPixels. simpl.
  rewrite length_replicate. auto.
Qed.

Lemma blankPixels_transparent (w h : Z) :
  Forall (fun p => p = transparent) (blankPixels w h).
Proof. unfold blankPixels. apply Forall_replicate. reflexivity. Qed.

(** Clearing the whole rectangle of the mask leaves no pixel behind. *)
Lemma pc_clearRect_full (c : PixelCanvas) :
  pc_wf c ->
  pc_clearRect 0 0 (pc_width c) (pc_height c) c
  = blankPixelCanvas (pc_width c) (pc_height c).
Proof.
  intros (Hw & Hh & Hlen). unfold pc_clearRect, blankPixelCanvas, blankPixels. f_equal.
  apply list_eq. intros i. rewrite list_lookup_imap.
  destruct (pc_data c !! i) as [p |] eqn:Hi; simpl.
  - apply lookup_lt_Some in Hi. rewrite Hlen in Hi.
    rewrite lookup_replicate_2 by exact Hi. f_equal.
    assert (0 < pc_width c) by nia.
    assert (Z.of_nat i < pc_width c * pc_height c) by lia.
    pose proof (Z.mod_pos_bound (Z.of_nat i) (pc_width c) ltac:(lia)).
    assert (0 <= Z.of_nat i / pc_width c) by (apply Z.div_pos; lia).
    assert (Z.of_nat i / pc_width c < pc_height c)
      by (apply Z.div_lt_upper_bound; lia).
    unfold inRect.
    replace (0 <=? Z.of_nat i mod pc_width c) with true by (symmetry; apply Z.leb_le; lia).
    replace (Z.of_nat i mod pc_width c <? 0 + pc_width c) with true
      by (symmetry; apply Z.ltb_lt; lia).
    replace (0 <=? Z.of_nat i / pc_width c) with true by (symmetry; apply Z.leb_le; lia).
    replace (Z.of_nat i / pc_width c <? 0 + pc_height c) with true
      by (symmetry; apply Z.ltb_lt; lia).
    reflexivity.
  - apply lookup_ge_None in Hi. rewrite Hlen in Hi.
    symmetry. apply lookup_replicate_None. exact Hi.
Qed.

Lemma pc_clearRect_blank (w h : Z) :
  0 <= w -> 0 <= h ->
  pc_clearRect 0 0 w h (mkPixelCanvas w h (blankPixels w h)) = blankPixelCanvas w h.
Proof.
  intros Hw Hh.
  exact (pc_clearRect_full (blankPixelCanvas w h) (blankPixelCanvas_wf w h Hw Hh)).
Qed.

Lemma capRatio_nonneg (w h : Z) : 0 <= w -> 0 <= h -> (0 <= capRatio w h)%Q.
Proof.
  intros Hw Hh. unfold capRatio.
  assert (Hquot : ∀ d : Z, 0 <= d -> (0 <= inject_Z MAX_DIM / inject_Z d)%Q).
  { intros d Hd. destruct d as [| p | p]; try lia.
    - unfold Qle, Qdiv, Qmult, Qinv, inject_Z, MAX_DIM. simpl. lia.
    - unfold Qle, Qdiv, Qmult, Qinv, inject_Z, MAX_DIM. simpl. lia. }
  destruct (w =? 0); [auto |]. destruct (h =? 0); [auto |].
  apply Q.min_glb; auto.
Qed.

Lemma scaled_nonneg (n : Z) (r : Q) : 0 <= n -> (0 <= r)%Q -> 0 <= Math_round (inject_Z n * r).
Proof.
  intros Hn Hr. rewrite <- (Math_round_inject 0) at 1. apply Math_round_monotone.
  apply Qmult_le_0_compat; [| exact Hr].
  change 0%Q with (inject_Z 0). rewrite <- Zle_Qle. exact Hn.
Qed.

(** [fitCanvasToImage] leaves two blank canvases of one size. *)
Lemma fitCanvasToImage_fresh (w h : Z) (st : Editor) :
  0 <= w -> 0 <= h ->
  ∃ w' h', 0 <= w' ∧ 0 <= h'
    ∧ fitCanvasToImage w h st
      = with_maskCanvas (blankPixelCanvas w' h') (with_cv (mkCanvas w' h' []) st).
Proof.
  intros Hw Hh. unfold fitCanvasToImage.
  destruct ((MAX_DIM <? w) || (MAX_DIM <? h)).
  - exists (Math_round (inject_Z w * capRatio w h)), (Math_round (inject_Z h * capRatio w h)).
    pose proof (capRatio_nonneg w h Hw Hh) as Hr.
    pose proof (scaled_nonneg w _ Hw Hr) as Hw'. pose proof (scaled_nonneg h _ Hh Hr) as Hh'.
    split; [exact Hw' | split; [exact Hh' |]].
    cbn [with_maskCanvas with_cv maskCanvas cv pc_setWidth pc_setHeight pc_width pc_height].
    rewrite pc_clearRect_blank by assumption.
    reflexivity.
  - exists w, h. split; [exact Hw | split; [exact Hh |]].
    cbn [with_maskCanvas with_cv maskCanvas cv pc_setWidth pc_setHeight pc_width pc_height].
    rewrite pc_clearRect_blank by assumption.
    reflexivity.
Qed.

(** ** What the drawing functions leave alone *)

Lemma drawBase_frame (st : Editor) :
  ∃ c, drawBase st = with_cv c st
       ∧ cv_width c = cv_width (cv st) ∧ cv_height c = cv_height (cv st).
Proof.
  unfold drawBase, cv_clearRect. rewrite !Z.add_0_l, !Z.leb_refl. simpl.
  destruct (maskHasSomething (maskCanvas st)); eexists; (split; [reflexivity | split; reflexivity]).
Qed.

Lemma drawAllOverlay_frame measureText (st : Editor) :
  ∃ c, drawAllOverlay measureText st = with_cv c st
       ∧ cv_width c = cv_width (cv st) ∧ cv_height c = cv_height (cv st).
Proof.
  unfold drawAllOverlay. destruct (hasImage st); simpl.
  - destruct (drawBase_frame st) as (c & -> & Hw & Hh).
    unfold drawWatermark, drawLeftCluster. simpl.
    eexists. split; [reflexivity | split; assumption].
  - exists (cv st). destruct st; repeat split.
Qed.

Lemma cv_clearRect_full (c : Canvas) :
  cv_clearRect 0 0 (cv_width c) (cv_height c) c = mkCanvas (cv_width c) (cv_height c) [].
Proof. unfold cv_clearRect. rewrite !Z.add_0_l, !Z.leb_refl. reflexivity. Qed.

(** The base layer depends on the size of the canvas, the image and the
    mask only. *)
Lemma drawBase_ext (s1 s2 : Editor) :
  cv_width (cv s1) = cv_width (cv s2) -> cv_height (cv s1) = cv_height (cv s2) ->
  img s1 = img s2 -> maskCanvas s1 = maskCanvas s2 ->
  cv (drawBase s1) = cv (drawBase s2).
Proof.
  intros Hw Hh Himg Hmask. unfold drawBase. rewrite !cv_clearRect_full.
  rewrite Hw, Hh, Himg, Hmask.
  destruct (maskHasSomething (maskCanvas s2)); reflexivity.
Qed.

Lemma drawAllOverlay_ext measureText (s1 s2 : Editor) :
  cv_width (cv s1) = cv_width (cv s2) -> cv_height (cv s1) = cv_height (cv s2) ->
  img s1 = img s2 -> maskCanvas s1 = maskCanvas s2 -> hasImage s1 = true ->
  hasImage s2 = true ->
  timeValue s1 = timeValue s2 -> dateValue s1 = dateValue s2 -> dowValue s1 = dowValue s2 ->
  cv (drawAllOverlay measureText s1) = cv (drawAllOverlay measureText s2).
Proof.
  intros Hw Hh Himg Hmask Hhas1 Hhas2 Ht Hd Hdow.
  pose proof (drawBase_ext s1 s2 Hw Hh Himg Hmask) as Hbase.
  destruct (drawBase_frame s1) as (c1 & E1 & _).
  destruct (drawBase_frame s2) as (c2 & E2 & _).
  rewrite E1, E2 in Hbase. simpl in Hbase. subst c2.
  unfold drawAllOverlay. rewrite Hhas1, Hhas2, E1, E2. simpl.
  rewrite Ht, Hd, Hdow. reflexivity.
Qed.

(** ** States of the page *)

Lemma blank_of_transparent (m : PixelCanvas) :
  pc_wf m -> Forall (fun p => p = transparent) (pc_data m) ->
  m = blankPixelCanvas (pc_width m) (pc_height m).
Proof.
  intros (_ & _ & Hlen) Hall. destruct m as [w h data]. simpl in *.
  unfold blankPixelCanvas, blankPixels. f_equal. symmetry.
  apply replicate_as_Forall. split; [exact Hlen |].
  eapply Forall_impl; [exact Hall |]. intros p ->. reflexivity.
Qed.

Lemma maskHasSomething_blank (m : PixelCanvas) :
  pc_wf m -> Forall (fun p => p = transparent) (pc_data m) -> maskHasSomething m = false.
Proof.
  intros Hwf Hall. apply not_true_iff_false. rewrite (maskHasSomething_pixels m Hwf).
  intros (p & Hin & Ha). rewrite Forall_forall in Hall.
  rewrite (Hall p Hin) in Ha. simpl in Ha. lia.
Qed.

Lemma loadImageFromUrl_frame (i : Image) (today : string) (st : Editor) :
  ∃ w h, 0 <= w ∧ 0 <= h
    ∧ maskCanvas (loadImageFromUrl i today st) = blankPixelCanvas w h
    ∧ cv_width (cv (loadImageFromUrl i today st)) = w
    ∧ cv_height (cv (loadImageFromUrl i today st)) = h
    ∧ hasImage (loadImageFromUrl i today st) = true.
Proof.
  unfold loadImageFromUrl.
  destruct (fitCanvasToImage_fresh (Z.of_N (naturalWidth i)) (Z.of_N (naturalHeight i))
              (with_img i st)) as (w & h & Hw & Hh & ->); [lia | lia |].
  exists w, h. simpl. destruct (dateValue st); simpl; auto 10.
Qed.

Lemma resetClick_frame (st : Editor) :
  hasImage st = true ->
  ∃ w h, 0 <= w ∧ 0 <= h
    ∧ maskCanvas (resetClick st) = blankPixelCanvas w h
    ∧ cv_width (cv (resetClick st)) = w
    ∧ cv_height (cv (resetClick st)) = h
    ∧ hasImage (resetClick st) = true.
Proof.
  intros Hhas. unfold resetClick. rewrite Hhas. simpl.
  destruct (fitCanvasToImage_fresh (Z.of_N (naturalWidth (img st)))
              (Z.of_N (naturalHeight (img st))) st) as (w & h & Hw & Hh & ->); [lia | lia |].
  exists w, h. simpl. rewrite pc_clearRect_blank by assumption. auto 10.
Qed.

Lemma fresh_mask_inv (st : Editor) (w h : Z) :
  0 <= w -> 0 <= h ->
  maskCanvas st = blankPixelCanvas w h -> cv_width (cv st) = w -> cv_height (cv st) = h ->
  mask_matches_canvas st ∧ mask_blank st.
Proof.
  intros Hw Hh Hmask Hcw Hch. unfold mask_matches_canvas, mask_blank. rewrite Hmask, Hcw, Hch.
  repeat split; try (apply blankPixelCanvas_wf; assumption).
  apply blankPixels_transparent.
Qed.

Lemma paint_frame fillArcPixel (e : PointerEvent) (st : Editor) :
  paint fillArcPixel e st = st
  ∨ (hasImage st = true
     ∧ ∃ c data, paint fillArcPixel e st
                 = with_cv c (with_maskCanvas
                                (mkPixelCanvas (pc_width (maskCanvas st))
                                               (pc_height (maskCanvas st)) data) st)
         ∧ length data = length (pc_data (maskCanvas st))
         ∧ cv_width c = cv_width (cv st) ∧ cv_height c = cv_height (cv st)).
Proof.
  unfold paint.
  destruct (negb (maskEnabled st) || negb (hasImage st) || negb (isPainting st)) eqn:Hguard;
    [left; reflexivity | right].
  apply orb_false_iff in Hguard as [Hguard _]. apply orb_false_iff in Hguard as [_ Hhas].
  apply negb_false_iff in Hhas. split; [exact Hhas |].
  match goal with |- context [drawBase ?s] => destruct (drawBase_frame s) as (c & -> & Hw & Hh) end.
  eexists c, _. split; [reflexivity |]. rewrite length_imap. auto.
Qed.

Lemma inv_same (st st' : Editor) :
  maskCanvas st' = maskCanvas st ->
  cv_width (cv st') = cv_width (cv st) -> cv_height (cv st') = cv_height (cv st) ->
  hasImage st' = hasImage st ->
  editor_inv st -> editor_inv st'.
Proof.
  unfold editor_inv, mask_matches_canvas, mask_blank.
  intros -> -> -> ->. auto.
Qed.

Lemma paint_inv fillArcPixel (e : PointerEvent) (st : Editor) :
  editor_inv st -> editor_inv (paint fillArcPixel e st).
Proof.
  intros Hinv.
  destruct (paint_frame fillArcPixel e st)
    as [-> | (Hhas & c & data & -> & Hdata & Hcw & Hch)]; [exact Hinv |].
  destruct Hinv as [(Hw & Hh & Hw0 & Hh0 & Hlen) _].
  split; [| simpl; congruence].
  unfold mask_matches_canvas, pc_wf. simpl. rewrite Hcw, Hch, Hdata. auto 10.
Qed.

Lemma handle_inv measureText fillArcPixel (ev : Event) (st : Editor) :
  editor_inv st -> editor_inv (handle measureText fillArcPixel ev st).
Proof.
  intros Hinv. destruct ev; simpl.
  - destruct (loadImageFromUrl_frame i today st) as (w & h & Hw & Hh & Hm & Hcw & Hch & Hhas).
    destruct (fresh_mask_inv _ w h Hw Hh Hm Hcw Hch). split; [assumption | auto].
  - unfold renderClick. destruct (hasImage st) eqn:Hhas; simpl.
    + destruct (drawAllOverlay_frame measureText st) as (c & -> & Hcw & Hch).
      revert Hinv. apply inv_same; simpl; auto.
    + revert Hinv. apply inv_same; reflexivity.
  - destruct (hasImage st) eqn:Hhas.
    + destruct (resetClick_frame st Hhas) as (w & h & Hw & Hh & Hm & Hcw & Hch & Hhas').
      destruct (fresh_mask_inv _ w h Hw Hh Hm Hcw Hch). split; [assumption | auto].
    + unfold resetClick. rewrite Hhas. exact Hinv.
  - unfold downloadClick. destruct (hasImage st); revert Hinv; apply inv_same; reflexivity.
  - revert Hinv. apply inv_same; reflexivity.
  - unfold clearMaskClick. destruct (hasImage st) eqn:Hhas; simpl; [| exact Hinv].
    match goal with |- context [drawBase ?s] => destruct (drawBase_frame s) as (c & -> & Hcw & Hch) end.
    simpl in Hcw, Hch. destruct Hinv as [(Hw & Hh & Hwf) _].
    split; [| simpl; congruence].
    unfold mask_matches_canvas. simpl. rewrite Hcw, Hch.
    rewrite pc_clearRect_full by exact Hwf. simpl.
    repeat split; try assumption; apply blankPixelCanvas_wf; apply Hwf.
  - revert Hinv. apply inv_same; reflexivity.
  - revert Hinv. apply inv_same; reflexivity.
  - apply paint_inv. revert Hinv. apply inv_same; reflexivity.
  - revert Hinv. apply inv_same; reflexivity.
  - apply paint_inv. exact Hinv.
  - apply paint_inv. revert Hinv. apply inv_same; reflexivity.
  - revert Hinv. apply inv_same; reflexivity.
  - apply paint_inv. exact Hinv.
Qed.

Lemma initial_inv : editor_inv initial.
Proof.
  split.
  - split; [reflexivity | split; [reflexivity |]].
    apply (blankPixelCanvas_wf 300 150); lia.
  - intros _. apply blankPixels_transparent.
Qed.

Lemma reachable_inv measureText fillArcPixel (st : Editor) :
  reachable measureText fillArcPixel st -> editor_inv st.
Proof.
  induction 1 as [| st ev _ IH]; [exact initial_inv | apply handle_inv; exact IH].
Qed.

Lemma maskHasSomething_decides_blur_witness :
  (maskHasSomething (maskCanvas paintedPage) = true
   <-> ∃ p, p ∈ pc_data (maskCanvas paintedPage) ∧ 0 < alpha p)
  ∧ maskHasSomething (blankPixelCanvas 0 7) = false
  ∧ drawBase loadedPage = with_cv (sharpBase loadedPage) loadedPage.
Proof.
  destruct maskHasSomething_decides_blur as (Hiff & Hzero & Hskip).
  split; [| split].
  - apply (Hiff (maskCanvas paintedPage)). vm_compute. repeat split; congruence.
  - apply (Hzero (blankPixelCanvas 0 7)). left. reflexivity.
  - apply (Hskip loadedPage). vm_compute. reflexivity.
Defined.

Example paintedPage_has_content : maskHasSomething (maskCanvas paintedPage) = true.
Proof. vm_compute. reflexivity. Qed.

(** C7 — after an image is loaded and after a reset, from any state of the
    page, the mask has the width and height of the visible canvas, holds
    one pixel for each position, and every pixel of it is transparent
    black: nothing painted before survives. *)
Theorem load_and_reset_leave_fresh_mask
    (measureText : Font -> string -> Q)
    (fillArcPixel : Q -> Q -> Q -> Z -> Z -> Pixel -> Pixel) (st : Editor) :
  reachable measureText fillArcPixel st ->
  (∀ (i : Image) (today : string),
     mask_matches_canvas (loadImageFromUrl i today st)
     ∧ mask_blank (loadImageFromUrl i today st))
  ∧ mask_matches_canvas (resetClick st)
  ∧ mask_blank (resetClick st).
Proof.
  intros Hreach. apply reachable_inv in Hreach as [Hmatch Hblank]. split.
  - intros i today.
    destruct (loadImageFromUrl_frame i today st) as (w & h & Hw & Hh & Hm & Hcw & Hch & _).
    exact (fresh_mask_inv _ w h Hw Hh Hm Hcw Hch).
  - destruct (hasImage st) eqn:Hhas.
    + destruct (resetClick_frame st Hhas) as (w & h & Hw & Hh & Hm & Hcw & Hch & _).
      exact (fresh_mask_inv _ w h Hw Hh Hm Hcw Hch).
    + unfold resetClick. rewrite Hhas. simpl. auto.
Qed.

Lemma load_and_reset_leave_fresh_mask_witness :
  (mask_matches_canvas (loadImageFromUrl tinyImage "2026-01-06" paintedPage)
   ∧ mask_blank (loadImageFromUrl tinyImage "2026-01-06" paintedPage))
  ∧ mask_matches_canvas (resetClick paintedPage)
  ∧ mask_blank (resetClick paintedPage).
Proof.
  destruct (load_and_reset_leave_fresh_mask halfEmMetrics hardDisc paintedPage)
    as (Hload & Hreset).
  - unfold paintedPage. repeat apply reach_handle. apply reach_initial.
  - split; [apply (Hload tinyImage "2026-01-06") | exact Hreset].
Defined.

(** C8 — after the undo button, from any state of the page, the mask has no
    content, every pixel of it is transparent black (it is the mask nobody
    has painted on), and a render gives the canvas it gives with that
    untouched mask. *)
Theorem clearMask_total_and_idempotent
    (measureText : Font -> string -> Q)
    (fillArcPixel : Q -> Q -> Q -> Z -> Z -> Pixel -> Pixel) (st : Editor) :
  reachable measureText fillArcPixel st ->
  let cleared := clearMaskClick st in
  let untouched :=
    with_maskCanvas (blankPixelCanvas (cv_width (cv st)) (cv_height (cv st))) st in
  maskHasSomething (maskCanvas cleared) = false
  ∧ mask_blank cleared
  ∧ maskCanvas cleared = maskCanvas untouched
  ∧ cv (renderClick measureText cleared) = cv (renderClick measureText untouched).
Proof.
  intros Hreach cleared untouched. subst cleared untouched.
  apply reachable_inv in Hreach as [(Hw & Hh & Hwf) Hblank].
  assert (Hbw : pc_wf (blankPixelCanvas (cv_width (cv st)) (cv_height (cv st)))).
  { rewrite <- Hw, <- Hh. apply blankPixelCanvas_wf; apply Hwf. }
  assert (Hmask : maskCanvas (clearMaskClick st)
                  = blankPixelCanvas (cv_width (cv st)) (cv_height (cv st))).
  { unfold clearMaskClick. destruct (hasImage st) eqn:Hhas; simpl.
    - match goal with |- context [drawBase ?s] => destruct (drawBase_frame s) as (c & -> & _) end.
      simpl. rewrite pc_clearRect_full by exact Hwf. now rewrite Hw, Hh.
    - rewrite <- Hw, <- Hh. apply blank_of_transparent; [exact Hwf | exact (Hblank eq_refl)]. }
  split; [| split; [| split]].
  - rewrite Hmask. apply maskHasSomething_blank; [exact Hbw | apply blankPixels_transparent].
  - unfold mask_blank. rewrite Hmask. apply blankPixels_transparent.
  - exact Hmask.
  - unfold renderClick, clearMaskClick in *. destruct (hasImage st) eqn:Hhas; simpl in *.
    + revert Hmask.
      match goal with |- context [drawBase ?s] => destruct (drawBase_frame s) as (c & -> & Hcw & Hch) end.
      simpl. intros Hmask. rewrite Hhas. simpl.
      apply drawAllOverlay_ext; simpl; auto.
    + rewrite Hhas. reflexivity.
Qed.

Lemma clearMask_total_and_idempotent_witness :
  maskHasSomething (maskCanvas (clearMaskClick paintedPage)) = false
  ∧ mask_blank (clearMaskClick paintedPage)
  ∧ maskCanvas (clearMaskClick paintedPage)
    = maskCanvas (with_maskCanvas
                    (blankPixelCanvas (cv_width (cv paintedPage)) (cv_height (cv paintedPage)))
                    paintedPage)
  ∧ cv (renderClick halfEmMetrics (clearMaskClick paintedPage))
    = cv (renderClick halfEmMetrics
            (with_maskCanvas
               (blankPixelCanvas (cv_width (cv paintedPage)) (cv_height (cv paintedPage)))
               paintedPage)).
Proof.
  apply (clearMask_total_and_idempotent halfEmMetrics hardDisc paintedPage).
  unfold paintedPage. repeat apply reach_handle. apply reach_initial.
Defined.

(** ** Actions without an image *)

(** C9, as the script has it — with no image loaded, the render and the
    download buttons leave the canvas, the mask and the overlay fields as
    they are and raise the prompt to choose an image; [paint] returns at
    once, changing nothing and raising no prompt; pressing the pointer on
    the canvas leaves the canvas, mask and fields as they are and raises
    nothing either. *)
Theorem empty_state_actions
    (measureText : Font -> string -> Q)
    (fillArcPixel : Q -> Q -> Q -> Z -> Z -> Pixel -> Pixel)
    (st : Editor) (e : PointerEvent) :
  hasImage st = false ->
  (same_content st (renderClick measureText st)
   ∧ alerts (renderClick measureText st) = (alerts st ++ [importPrompt])%list)
  ∧ (same_content st (downloadClick st)
     ∧ alerts (downloadClick st) = (alerts st ++ [importPrompt])%list
     ∧ downloads (downloadClick st) = downloads st)
  ∧ paint fillArcPixel e st = st
  ∧ (same_content st (handle measureText fillArcPixel (MouseDown e) st)
     ∧ alerts (handle measureText fillArcPixel (MouseDown e) st) = alerts st).
Proof.
  intros Hempty. unfold renderClick, downloadClick, paint, handle, paint.
  simpl. rewrite Hempty. simpl. rewrite orb_true_r. simpl.
  unfold same_content. simpl. rewrite Hempty. auto 20.
Qed.

Lemma empty_state_actions_witness :
  (same_content brushOnPage (renderClick halfEmMetrics brushOnPage)
   ∧ alerts (renderClick halfEmMetrics brushOnPage) = (alerts brushOnPage ++ [importPrompt])%list)
  ∧ (same_content brushOnPage (downloadClick brushOnPage)
     ∧ alerts (downloadClick brushOnPage) = (alerts brushOnPage ++ [importPrompt])%list
     ∧ downloads (downloadClick brushOnPage) = downloads brushOnPage)
  ∧ paint hardDisc centreClick brushOnPage = brushOnPage
  ∧ (same_content brushOnPage (handle halfEmMetrics hardDisc (MouseDown centreClick) brushOnPage)
     ∧ alerts (handle halfEmMetrics hardDisc (MouseDown centreClick) brushOnPage)
       = alerts brushOnPage).
Proof.
  apply (empty_state_actions halfEmMetrics hardDisc brushOnPage centreClick).
  reflexivity.
Defined.

(** With the brush on and no image, a press on the canvas raises no
    prompt: no alert box, and the status line keeps its text. *)
Lemma paint_without_image_is_silent :
  hasImage brushOnPage = false
  ∧ maskEnabled brushOnPage = true
  ∧ alerts (handle halfEmMetrics hardDisc (MouseDown centreClick) brushOnPage) = []
  ∧ statusText (handle halfEmMetrics hardDisc (MouseDown centreClick) brushOnPage)
    = statusText brushOnPage.
Proof. repeat split. Qed.

(** ** Fallback texts *)

Lemma drawAllOverlay_texts measureText (st : Editor) :
  hasImage st = true ->
  textsDrawn (cv (drawAllOverlay measureText st))
  = [ subText; timePart; markPart;
      or_else (timeValue st) "05:37";
      or_else (formatDateDDMMYYYY (dateValue st)) "05/01/2026";
      or_else (dowValue st) "Thứ Năm";
      addr2; addr1 ].
Proof.
  intros Hhas. unfold drawAllOverlay. rewrite Hhas. simpl.
  unfold drawBase. rewrite cv_clearRect_full.
  destruct (maskHasSomething (maskCanvas st)); reflexivity.
Qed.

(** C5, as the script has it — when the date field is empty or malformed
    ([formatDateDDMMYYYY] gives the empty string), a render draws the date
    ["05/01/2026"] in its place and raises no alert; the time and the
    weekday drawn are the values of their own fields, each replaced by its
    default (["05:37"], ["Thứ Năm"]) only when that field is itself empty. *)
Theorem malformed_date_fallback (measureText : Font -> string -> Q) (st : Editor) :
  hasImage st = true ->
  formatDateDDMMYYYY (dateValue st) = EmptyString ->
  textsDrawn (cv (renderClick measureText st))
  = [ subText; timePart; markPart;
      or_else (timeValue st) "05:37"; "05/01/2026"; or_else (dowValue st) "Thứ Năm";
      addr2; addr1 ]
  ∧ alerts (renderClick measureText st) = alerts st.
Proof.
  intros Hhas Hdate. unfold renderClick. rewrite Hhas. simpl.
  rewrite drawAllOverlay_texts by exact Hhas. rewrite Hdate. split; [reflexivity |].
  destruct (drawAllOverlay_frame measureText st) as (c & -> & _). reflexivity.
Qed.

Lemma malformed_date_fallback_witness :
  textsDrawn (cv (renderClick halfEmMetrics noDatePage))
  = [ subText; timePart; markPart;
      or_else (timeValue noDatePage) "05:37"; "05/01/2026";
      or_else (dowValue noDatePage) "Thứ Năm";
      addr2; addr1 ]
  ∧ alerts (renderClick halfEmMetrics noDatePage) = alerts noDatePage.
Proof.
  apply (malformed_date_fallback halfEmMetrics noDatePage); reflexivity.
Defined.

(** With the date emptied, the time set to noon and Monday picked, a render
    draws the fallback date next to the user's time and weekday: the
    fallback time and weekday are not substituted. *)
Lemma fallback_is_not_a_triple :
  formatDateDDMMYYYY (dateValue noDatePage) = EmptyString
  ∧ textsDrawn (cv (renderClick halfEmMetrics noDatePage))
    = [ subText; timePart; markPart; "12:00"; "05/01/2026"; "Thứ Hai"; addr2; addr1 ]
  ∧ ~ In "05:37" (textsDrawn (cv (renderClick halfEmMetrics noDatePage)))
  ∧ ~ In "Thứ Năm" (textsDrawn (cv (renderClick halfEmMetrics noDatePage))).
Proof.
  assert (Htexts : textsDrawn (cv (renderClick halfEmMetrics noDatePage))
                   = [ subText; timePart; markPart; "12:00"; "05/01/2026"; "Thứ Hai";
                       addr2; addr1 ]) by (vm_compute; reflexivity).
  split; [reflexivity | split; [exact Htexts |]].
  rewrite Htexts. split; intros Hin; simpl in Hin;
    repeat (destruct Hin as [Hin | Hin]; [discriminate Hin |]); exact Hin.
Qed.

(** ** Overlap avoidance *)

Lemma inject_Z_le (a b : Z) : a <= b -> (inject_Z a <= inject_Z b)%Q.
Proof. intros Hab. rewrite <- Zle_Qle. exact Hab. Qed.

Lemma inject_Z_sub (a b : Z) : (inject_Z (a - b) == inject_Z a - inject_Z b)%Q.
Proof. unfold Z.sub. rewrite inject_Z_plus, inject_Z_opp. reflexivity. Qed.

Lemma clamp_bounds (n lo hi : Z) : lo <= hi -> lo <= clamp n lo hi <= hi.
Proof. unfold clamp. lia. Qed.




Section LeftClusterFacts.

Variable measureText : Font -> string -> Q.
Variables W H reservedRight : Z.
Variables timeVal dateText dowText : string.



End LeftClusterFacts.




(** ** The admin endpoint *)

Section AdminFacts.

Variable strip : string -> string.
Variable int : string -> option Z.




Lemma count_admins_cons (r : UserRow) (db : list UserRow) :
  count_admins (r :: db)
  = ((if decide (u_role r = "admin") then 1 else 0) + count_admins db)%nat.
Proof.
  unfold count_admins. destruct (decide (u_role r = "admin")).
  - rewrite filter_cons_True by assumption. reflexivity.
  - rewrite filter_cons_False by assumption. reflexivity.
Qed.





(** The three ways the body of the handler ends. *)
Lemma admin_delete_user_body_cases (req : Request) (session : gmap string SessionValue)
    (db : list UserRow) :
  let username := strip (form_get_or_empty req "username") in
  admin_delete_user_body strip int req session db = (Returned (Redirect "/admin"), session, db)
  ∨ (bool_decide (select_role db username = Some "admin") && (count_admins db <=? 1)%nat = false
     ∧ (admin_delete_user_body strip int req session db).2 = delete_user username db
     ∧ (own_account int req session ->
        admin_delete_user_body strip int req session db
        = (Returned (Redirect "/login"), ∅, delete_user username db))).
Proof.
  intros username. unfold admin_delete_user_body. fold username.
  destruct username as [| c name] eqn:Hname; [left; reflexivity |].
  destruct (bool_decide (select_role db (String c name) = Some "admin")
            && (count_admins db <=? 1)%nat) eqn:Hguard; [left; reflexivity | right].
  split; [reflexivity |]. split.
  - destruct (form req !! "uid") as [[| c' u] |]; try reflexivity.
    destruct (int (String c' u)); [| reflexivity].
    destruct (bool_decide (session !! "uid" = Some (SInt z))); reflexivity.
  - intros (u & n & Hu & Hne & Hint & Hsess). rewrite Hu.
    destruct u as [| c' u]; [congruence |]. rewrite Hint.
    rewrite bool_decide_eq_true_2 by exact Hsess. reflexivity.
Qed.

End AdminFacts.



Example deleteRoot2_outcome :
  admin_delete_user noBlanks decimalInt deleteRoot2 root2Session twoAdmins
  = (Returned (Redirect "/login"), ∅,
     [ mkUserRow 1 "admin" "pbkdf2:1" "admin"; mkUserRow 3 "user" "pbkdf2:3" "user" ]).
Proof. vm_compute. reflexivity. Qed.

(** * Further properties of the editor script *)

(** ** The text fitter picks the largest size that fits *)

(** X1 — [fitFontToWidth] returns the largest size in
    [(minSize, startSize]] at which the text fits: above the floor the text
    fits at the returned size, no size between the returned one and
    [startSize] fits, and when no size above the floor fits (in particular
    when [startSize <= minSize]) the floor is returned, fitting or not. *)
Theorem fitFontToWidth_largest_fit
    (measureText : Font -> string -> Q) (text : string) (tpl : Z -> Font)
    (startSize minSize : Z) (maxWidth : Q) :
  let r := fitFontToWidth measureText text tpl startSize minSize maxWidth in
  (r ≠ minSize -> (measureText (tpl r) text <= maxWidth)%Q)
  ∧ (∀ s, r < s <= startSize -> ~ (measureText (tpl s) text <= maxWidth)%Q)
  ∧ ((∀ s, minSize < s <= startSize -> ~ (measureText (tpl s) text <= maxWidth)%Q) ->
     r = minSize).
Proof.
  intros r. subst r. unfold fitFontToWidth, fitFrom.
  remember (Z.to_nat (startSize - minSize)) as n eqn:Hcount.
  assert (Hn : startSize - Z.of_nat n <= minSize) by lia.
  split; [| split].
  - intros Hne. apply Qle_bool_iff. exact (fitLoop_fits _ _ _ _ _ _ _ Hne).
  - intros s Hs Hfit. apply Qle_bool_iff in Hfit.
    pose proof (fitLoop_largest measureText text tpl minSize maxWidth n startSize s Hs Hn)
      as Hno.
    unfold fits in Hno. congruence.
  - intros Hnone.
    destruct (Z.eq_dec (fitLoop measureText text tpl minSize maxWidth n startSize) minSize)
      as [Heq | Hne]; [exact Heq | exfalso].
    pose proof (fitLoop_fits _ _ _ _ _ _ _ Hne) as Hfit. apply Qle_bool_iff in Hfit.
    destruct (Z.le_gt_cases startSize minSize) as [Hle | Hgt].
    + replace n with O in Hne by lia. simpl in Hne. congruence.
    + assert (Hfloor : minSize <= startSize - Z.of_nat n) by lia.
      pose proof (fitLoop_bounds measureText text tpl minSize maxWidth n startSize Hfloor)
        as Hb.
      apply (Hnone (fitLoop measureText text tpl minSize maxWidth n startSize));
        [lia | exact Hfit].
Qed.

Lemma fitFontToWidth_largest_fit_witness :
  let r := fitFontToWidth halfEmMetrics fullText font700 44 12 100 in
  (r ≠ 12 -> (halfEmMetrics (font700 r) fullText <= 100)%Q)
  ∧ (26 <= 44 -> ~ (halfEmMetrics (font700 26) fullText <= 100)%Q)
  ∧ r = 25.
Proof.
  destruct (fitFontToWidth_largest_fit halfEmMetrics fullText font700 44 12 100)
    as (Hfit & Hlargest & _).
  split; [exact Hfit | split].
  - intros _. apply (Hlargest 26). vm_compute. split; [reflexivity | discriminate].
  - reflexivity.
Defined.

(** ** What the date formatter accepts *)

Lemma formatDate_shape (s : string) :
  formatDateDDMMYYYY s = EmptyString ∧ count_char hyphen s ≠ 2%nat
  ∨ (∃ y m d, split hyphen s = [y; m; d]
       ∧ count_char hyphen s = 2%nat
       ∧ formatDateDDMMYYYY s
         = padStart 2 "0"%char d ++ "/" ++ padStart 2 "0"%char m ++ "/" ++ y).
Proof.
  destruct s as [| c s]; [left; split; [reflexivity | discriminate] |].
  rewrite formatDate_of_parts by discriminate.
  pose proof (split_length hyphen (String c s)) as Hlen.
  destruct (split hyphen (String c s)) as [| p1 [| p2 [| p3 [| p4 ps]]]];
    cbn [length] in Hlen;
    try (left; split; [reflexivity | lia]).
  right. exists p1, p2, p3. split; [reflexivity | split; [lia | reflexivity]].
Qed.

Lemma append_slash_nonempty (a b : string) : a ++ "/" ++ b ≠ EmptyString.
Proof. destruct a; discriminate. Qed.

Lemma formatDate_empty_iff_helper (s : string) :
  formatDateDDMMYYYY s = EmptyString -> count_char hyphen s ≠ 2%nat.
Proof.
  destruct (formatDate_shape s) as [[_ Hcount] | (y & m & d & _ & _ & Hout)];
    [intros _; exact Hcount |].
  rewrite Hout. intros Hempty. exfalso. exact (append_slash_nonempty _ _ Hempty).
Qed.

(** X2 — the formatter validates nothing but the number of hyphens: its
    result is empty exactly when the input does not hold two hyphens, so a
    string such as ["a-b-c"] is formatted (to ["0c/0b/a"]) and never
    reaches the caller's fallback. *)
Theorem formatDate_empty_iff (s : string) :
  formatDateDDMMYYYY s = EmptyString <-> count_char hyphen s ≠ 2%nat.
Proof.
  destruct (formatDate_shape s) as [[Hempty Hcount] | (y & m & d & _ & Hcount & Hout)].
  - split; auto.
  - rewrite Hout. split; [intros Hempty | intros Hne; lia].
    exfalso. exact (append_slash_nonempty _ _ Hempty).
Qed.

Lemma formatDate_empty_iff_witness : formatDateDDMMYYYY "2026-01" = EmptyString.
Proof. apply (formatDate_empty_iff "2026-01"). vm_compute. lia. Defined.

Example formatDate_unvalidated : formatDateDDMMYYYY "a-b-c" = "0c/0b/a".
Proof. reflexivity. Qed.

Lemma js_length_app (a b : string) : js_length (a ++ b) = (js_length a + js_length b)%nat.
Proof. induction a as [| c a IH]; simpl; [reflexivity | rewrite IH; lia]. Qed.

Lemma js_length_replicate_ascii (n : nat) (c : ascii) :
  units_of_byte c = 1%nat -> js_length (replicate_char n c) = n.
Proof. intros Hc. induction n as [| n IH]; simpl; [reflexivity | rewrite Hc, IH; reflexivity]. Qed.

(** X3 — for any three hyphen-free parts, [formatDateDDMMYYYY] of
    [y-m-d] is the day and the month, each left-padded with zeros to two
    characters (and left as they are when longer), then the year unchanged,
    joined by slashes. *)
Theorem formatDate_pads_day_and_month (y m d : string) :
  count_char hyphen y = 0%nat -> count_char hyphen m = 0%nat -> count_char hyphen d = 0%nat ->
  formatDateDDMMYYYY (y ++ "-" ++ m ++ "-" ++ d)
  = padStart 2 "0"%char d ++ "/" ++ padStart 2 "0"%char m ++ "/" ++ y
  ∧ js_length (padStart 2 "0"%char d) = Nat.max 2 (js_length d)
  ∧ js_length (padStart 2 "0"%char m) = Nat.max 2 (js_length m).
Proof.
  intros Hy Hm Hd. split; [| split].
  - rewrite formatDate_of_parts by (destruct y; discriminate).
    change (y ++ "-" ++ m ++ "-" ++ d) with (y ++ String hyphen (m ++ String hyphen d)).
    rewrite split_app by exact Hy. rewrite split_app by exact Hm.
    rewrite split_without by exact Hd. reflexivity.
  - unfold padStart. rewrite js_length_app, js_length_replicate_ascii by reflexivity. lia.
  - unfold padStart. rewrite js_length_app, js_length_replicate_ascii by reflexivity. lia.
Qed.

Lemma formatDate_pads_day_and_month_witness :
  formatDateDDMMYYYY ("2026" ++ "-" ++ "1" ++ "-" ++ "5")
  = padStart 2 "0"%char "5" ++ "/" ++ padStart 2 "0"%char "1" ++ "/" ++ "2026"
  ∧ js_length (padStart 2 "0"%char "5") = Nat.max 2 (js_length "5")
  ∧ js_length (padStart 2 "0"%char "1") = Nat.max 2 (js_length "1").
Proof. apply (formatDate_pads_day_and_month "2026" "1" "5"); reflexivity. Defined.

(** ** Canvas sizes *)

Lemma capRatio_longer (w h : Z) :
  0 <= w -> 0 <= h -> 0 < Z.max w h ->
  (capRatio w h == inject_Z MAX_DIM / inject_Z (Z.max w h))%Q.
Proof.
  intros Hw Hh Hpos. destruct (Z.eq_dec w 0) as [-> | Hw0].
  - unfold capRatio. simpl. rewrite Z.max_r by lia. reflexivity.
  - destruct (Z.eq_dec h 0) as [-> | Hh0].
    + unfold capRatio. destruct (Z.eqb_spec w 0); [lia |]. simpl.
      rewrite Z.max_l by lia. reflexivity.
    + destruct (Z.le_ge_cases h w).
      * rewrite Z.max_l by lia. apply capRatio_wide. lia.
      * rewrite Z.max_r by lia. apply capRatio_tall. lia.
Qed.

(** A side scaled by 2500 over a longer side above 2500 shrinks. *)
Lemma capped_side_bounds (a b : Z) :
  0 <= b <= a -> MAX_DIM < a ->
  0 <= Math_round (inject_Z b * (inject_Z MAX_DIM / inject_Z a)) <= Z.min b MAX_DIM.
Proof.
  intros Hb Ha. unfold MAX_DIM in *. rewrite Math_round_scaled by lia. split.
  - apply Z.div_pos; lia.
  - apply Z.lt_succ_r. apply Z.div_lt_upper_bound; [lia |].
    destruct (Z.le_ge_cases b 2500); [rewrite Z.min_l by lia | rewrite Z.min_r by lia]; nia.
Qed.

Lemma fitCanvasToImage_size (w h : Z) (st : Editor) :
  0 <= w -> 0 <= h ->
  0 <= cv_width (cv (fitCanvasToImage w h st)) <= Z.min w MAX_DIM
  ∧ 0 <= cv_height (cv (fitCanvasToImage w h st)) <= Z.min h MAX_DIM.
Proof.
  intros Hw Hh. rewrite fitCanvasToImage_cv.
  destruct ((MAX_DIM <? w) || (MAX_DIM <? h)) eqn:Hbig; simpl.
  - apply orb_true_iff in Hbig. rewrite !Z.ltb_lt in Hbig.
    assert (Hlong : MAX_DIM < Z.max w h) by lia.
    rewrite (capRatio_longer w h Hw Hh) by (unfold MAX_DIM in *; lia).
    split; apply capped_side_bounds; lia.
  - apply orb_false_iff in Hbig. rewrite !Z.ltb_ge in Hbig. lia.
Qed.

(** X4 — [fitCanvasToImage] never enlarges: for any natural size, zero
    included, each side of the canvas is at most the image's and at most
    2500, and is not negative. *)
Theorem fitCanvasToImage_never_upscales (w h : Z) (st : Editor) :
  0 <= w -> 0 <= h ->
  let c := cv (fitCanvasToImage w h st) in
  0 <= cv_width c <= w ∧ 0 <= cv_height c <= h
  ∧ cv_width c <= MAX_DIM ∧ cv_height c <= MAX_DIM.
Proof.
  intros Hw Hh c. subst c.
  pose proof (fitCanvasToImage_size w h st Hw Hh). lia.
Qed.

Lemma fitCanvasToImage_never_upscales_witness :
  let c := cv (fitCanvasToImage 0 3000 initial) in
  0 <= cv_width c <= 0 ∧ 0 <= cv_height c <= 3000
  ∧ cv_width c <= MAX_DIM ∧ cv_height c <= MAX_DIM.
Proof. apply (fitCanvasToImage_never_upscales 0 3000 initial); lia. Defined.

(** [fitCanvasToImage] touches the two canvases only, and what it leaves
    does not depend on what was there. *)
Lemma fitCanvasToImage_fields (w h : Z) (st : Editor) :
  fitCanvasToImage w h st
  = with_maskCanvas (maskCanvas (fitCanvasToImage w h st))
      (with_cv (cv (fitCanvasToImage w h st)) st).
Proof. unfold fitCanvasToImage. destruct ((MAX_DIM <? w) || (MAX_DIM <? h)); reflexivity. Qed.

Lemma fitCanvasToImage_ext (w h : Z) (s1 s2 : Editor) :
  cv (fitCanvasToImage w h s1) = cv (fitCanvasToImage w h s2)
  ∧ maskCanvas (fitCanvasToImage w h s1) = maskCanvas (fitCanvasToImage w h s2).
Proof. unfold fitCanvasToImage. destruct ((MAX_DIM <? w) || (MAX_DIM <? h)); split; reflexivity. Qed.

Lemma loadImageFromUrl_cv (i : Image) (today : string) (st : Editor) :
  cv (loadImageFromUrl i today st)
  = draw (DrawImage (ImageSource i) None 0 0
            (Some (cv_width (cv (fitCanvasToImage (Z.of_N (naturalWidth i))
                                   (Z.of_N (naturalHeight i)) st)),
                   cv_height (cv (fitCanvasToImage (Z.of_N (naturalWidth i))
                                    (Z.of_N (naturalHeight i)) st))))
            SourceOver)
         (cv (fitCanvasToImage (Z.of_N (naturalWidth i)) (Z.of_N (naturalHeight i)) st)).
Proof.
  unfold loadImageFromUrl.
  destruct (fitCanvasToImage_ext (Z.of_N (naturalWidth i)) (Z.of_N (naturalHeight i))
              (with_img i st) st) as [<- _].
  rewrite (fitCanvasToImage_fields _ _ (with_img i st)). simpl.
  destruct (dateValue st); reflexivity.
Qed.

Lemma resetClick_cv (st : Editor) :
  hasImage st = true ->
  cv (resetClick st)
  = draw (DrawImage (ImageSource (img st)) None 0 0
            (Some (cv_width (cv (fitCanvasToImage (Z.of_N (naturalWidth (img st)))
                                   (Z.of_N (naturalHeight (img st))) st)),
                   cv_height (cv (fitCanvasToImage (Z.of_N (naturalWidth (img st)))
                                    (Z.of_N (naturalHeight (img st))) st))))
            SourceOver)
         (cv (fitCanvasToImage (Z.of_N (naturalWidth (img st)))
                (Z.of_N (naturalHeight (img st))) st)).
Proof.
  intros Hhas. unfold resetClick. rewrite Hhas. simpl.
  rewrite (fitCanvasToImage_fields _ _ st). reflexivity.
Qed.

(** The size of the visible canvas after an event: the one before, or one
    [fitCanvasToImage] computed from a natural size. *)
Lemma handle_cv_size measureText fillArcPixel (ev : Event) (st : Editor) :
  (cv_width (cv (handle measureText fillArcPixel ev st)) = cv_width (cv st)
   ∧ cv_height (cv (handle measureText fillArcPixel ev st)) = cv_height (cv st))
  ∨ (∃ w h, 0 <= w ∧ 0 <= h
       ∧ cv_width (cv (handle measureText fillArcPixel ev st))
         = cv_width (cv (fitCanvasToImage w h st))
       ∧ cv_height (cv (handle measureText fillArcPixel ev st))
         = cv_height (cv (fitCanvasToImage w h st))).
Proof.
  assert (Hpaint : ∀ e s, cv_width (cv (paint fillArcPixel e s)) = cv_width (cv s)
                          ∧ cv_height (cv (paint fillArcPixel e s)) = cv_height (cv s)).
  { intros e s. destruct (paint_frame fillArcPixel e s)
      as [-> | (_ & c & data & -> & _ & Hcw & Hch)]; simpl; auto. }
  destruct ev; cbn [handle].
  - right. exists (Z.of_N (naturalWidth i)), (Z.of_N (naturalHeight i)).
    rewrite loadImageFromUrl_cv. simpl. split; [lia | split; [lia | auto]].
  - left. unfold renderClick. destruct (hasImage st); simpl; [| auto].
    destruct (drawAllOverlay_frame measureText st) as (c & -> & Hcw & Hch). auto.
  - destruct (hasImage st) eqn:Hhas.
    + right. exists (Z.of_N (naturalWidth (img st))), (Z.of_N (naturalHeight (img st))).
      rewrite resetClick_cv by exact Hhas. simpl. split; [lia | split; [lia | auto]].
    + left. unfold resetClick. rewrite Hhas. auto.
  - left. unfold downloadClick. destruct (hasImage st); auto.
  - left. split; reflexivity.
  - left. unfold clearMaskClick. destruct (hasImage st); simpl; [| auto].
    match goal with |- context [drawBase ?s] => destruct (drawBase_frame s) as (c & -> & Hcw & Hch) end.
    auto.
  - left. split; reflexivity.
  - left. split; reflexivity.
  - left. destruct (Hpaint e (with_isPainting true st)). auto.
  - left. split; reflexivity.
  - left. apply Hpaint.
  - left. destruct (Hpaint e (with_isPainting true st)). auto.
  - left. split; reflexivity.
  - left. apply Hpaint.
Qed.

(** X5 — in every state the page can reach, the mask has the size of the
    visible canvas with one pixel for each position, it is untouched while
    no image is loaded, and both sides of the canvas lie between 0 and
    2500. *)
Theorem reachable_sizes
    (measureText : Font -> string -> Q)
    (fillArcPixel : Q -> Q -> Q -> Z -> Z -> Pixel -> Pixel) (st : Editor) :
  reachable measureText fillArcPixel st ->
  mask_matches_canvas st
  ∧ (hasImage st = false -> mask_blank st)
  ∧ 0 <= cv_width (cv st) <= MAX_DIM
  ∧ 0 <= cv_height (cv st) <= MAX_DIM.
Proof.
  intros Hreach. pose proof (reachable_inv _ _ _ Hreach) as [Hmatch Hblank].
  split; [exact Hmatch | split; [exact Hblank |]].
  induction Hreach as [| st ev Hreach IH].
  - unfold MAX_DIM. simpl. lia.
  - specialize (IH (proj1 (reachable_inv _ _ _ Hreach)) (proj2 (reachable_inv _ _ _ Hreach))).
    destruct (handle_cv_size measureText fillArcPixel ev st)
      as [[-> ->] | (w & h & Hw & Hh & -> & ->)]; [exact IH |].
    pose proof (fitCanvasToImage_size w h st Hw Hh). lia.
Qed.

Lemma reachable_sizes_witness :
  mask_matches_canvas paintedPage
  ∧ (hasImage paintedPage = false -> mask_blank paintedPage)
  ∧ 0 <= cv_width (cv paintedPage) <= MAX_DIM
  ∧ 0 <= cv_height (cv paintedPage) <= MAX_DIM.
Proof.
  apply (reachable_sizes halfEmMetrics hardDisc paintedPage).
  unfold paintedPage. repeat apply reach_handle. apply reach_initial.
Defined.

(** ** How the listeners compose *)

Lemma handle_hasImage measureText fillArcPixel (ev : Event) (st : Editor) :
  hasImage (handle measureText fillArcPixel ev st)
  = match ev with
    | ImageLoaded _ _ => true
    | _ => hasImage st
    end.
Proof.
  assert (Hpaint : ∀ e s, hasImage (paint fillArcPixel e s) = hasImage s).
  { intros e s. destruct (paint_frame fillArcPixel e s)
      as [-> | (_ & c & data & -> & _)]; reflexivity. }
  destruct ev; cbn [handle]; try reflexivity; try apply Hpaint.
  - destruct (loadImageFromUrl_frame i today st) as (w & h & _ & _ & _ & _ & _ & Hhas).
    exact Hhas.
  - unfold renderClick. destruct (hasImage st) eqn:Hhas; simpl; [| exact Hhas].
    destruct (drawAllOverlay_frame measureText st) as (c & -> & _). exact Hhas.
  - destruct (hasImage st) eqn:Hhas.
    + destruct (resetClick_frame st Hhas) as (w & h & _ & _ & _ & _ & _ & Hhas'). exact Hhas'.
    + unfold resetClick. rewrite Hhas. exact Hhas.
  - unfold downloadClick. destruct (hasImage st) eqn:Hhas; exact Hhas.
  - unfold clearMaskClick. destruct (hasImage st) eqn:Hhas; simpl; [| exact Hhas].
    match goal with |- context [drawBase ?s] => destruct (drawBase_frame s) as (c & -> & _) end.
    exact Hhas.
  - rewrite Hpaint. reflexivity.
  - rewrite Hpaint. reflexivity.
Qed.

(** X6 — the page never goes back to the empty state: an event leaves an
    image loaded if one was, and only the arrival of a decoded image loads
    one. *)
Theorem image_stays_loaded
    (measureText : Font -> string -> Q)
    (fillArcPixel : Q -> Q -> Q -> Z -> Z -> Pixel -> Pixel)
    (ev : Event) (st : Editor) :
  (hasImage st = true -> hasImage (handle measureText fillArcPixel ev st) = true)
  ∧ (hasImage (handle measureText fillArcPixel ev st) = true ->
     hasImage st = true ∨ ∃ i today, ev = ImageLoaded i today).
Proof.
  rewrite handle_hasImage. split.
  - intros Hhas. destruct ev; auto.
  - intros Hhas. destruct ev; eauto.
Qed.

Lemma image_stays_loaded_witness :
  hasImage (handle halfEmMetrics hardDisc ResetClick renderedPage) = true
  ∧ (hasImage (handle halfEmMetrics hardDisc DownloadClick initial) = true ->
     hasImage initial = true ∨ ∃ i today, DownloadClick = ImageLoaded i today).
Proof.
  split.
  - apply (image_stays_loaded halfEmMetrics hardDisc ResetClick renderedPage). reflexivity.
  - apply (image_stays_loaded halfEmMetrics hardDisc DownloadClick initial).
Defined.

Lemma loadImageFromUrl_rest (i : Image) (today : string) (st : Editor) :
  maskCanvas (loadImageFromUrl i today st)
  = maskCanvas (fitCanvasToImage (Z.of_N (naturalWidth i)) (Z.of_N (naturalHeight i)) st)
  ∧ originalBitmap (loadImageFromUrl i today st) = Some (cv (loadImageFromUrl i today st))
  ∧ img (loadImageFromUrl i today st) = i.
Proof.
  rewrite loadImageFromUrl_cv. unfold loadImageFromUrl.
  destruct (fitCanvasToImage_ext (Z.of_N (naturalWidth i)) (Z.of_N (naturalHeight i))
              (with_img i st) st) as [<- <-].
  rewrite (fitCanvasToImage_fields _ _ (with_img i st)). simpl.
  destruct (dateValue st); simpl; auto.
Qed.

Lemma resetClick_rest (st : Editor) :
  hasImage st = true ->
  maskCanvas (resetClick st)
  = maskCanvas (fitCanvasToImage (Z.of_N (naturalWidth (img st)))
                  (Z.of_N (naturalHeight (img st))) st)
  ∧ originalBitmap (resetClick st) = Some (cv (resetClick st))
  ∧ img (resetClick st) = img st.
Proof.
  intros Hhas. rewrite resetClick_cv by exact Hhas. unfold resetClick. rewrite Hhas.
  destruct (fitCanvasToImage_fresh (Z.of_N (naturalWidth (img st)))
              (Z.of_N (naturalHeight (img st))) st) as (w & h & Hw & Hh & ->); [lia | lia |].
  simpl. rewrite pc_clearRect_blank by assumption. auto.
Qed.

(** X7 — a reset puts back what the import of the same image gave: the
    visible canvas, the mask and the snapshot kept in [originalBitmap] are
    those right after loading that image, whatever was painted or rendered
    in between. *)
Theorem reset_restores_import (st before : Editor) (today : string) :
  hasImage st = true ->
  cv (resetClick st) = cv (loadImageFromUrl (img st) today before)
  ∧ maskCanvas (resetClick st) = maskCanvas (loadImageFromUrl (img st) today before)
  ∧ originalBitmap (resetClick st) = originalBitmap (loadImageFromUrl (img st) today before)
  ∧ img (resetClick st) = img (loadImageFromUrl (img st) today before).
Proof.
  intros Hhas.
  destruct (resetClick_rest st Hhas) as (Hmask & Horig & Himg).
  destruct (loadImageFromUrl_rest (img st) today before) as (Hmask' & Horig' & Himg').
  assert (Hcv : cv (resetClick st) = cv (loadImageFromUrl (img st) today before)).
  { rewrite resetClick_cv by exact Hhas. rewrite loadImageFromUrl_cv.
    destruct (fitCanvasToImage_ext (Z.of_N (naturalWidth (img st)))
                (Z.of_N (naturalHeight (img st))) st before) as [-> _]. reflexivity. }
  split; [exact Hcv | split; [| split]].
  - rewrite Hmask, Hmask'.
    apply (fitCanvasToImage_ext (Z.of_N (naturalWidth (img st)))
             (Z.of_N (naturalHeight (img st))) st before).
  - rewrite Horig, Horig', Hcv. reflexivity.
  - rewrite Himg, Himg'. reflexivity.
Qed.

Lemma reset_restores_import_witness :
  cv (resetClick renderedPage) = cv (loadImageFromUrl (img renderedPage) "2026-01-05" initial)
  ∧ maskCanvas (resetClick renderedPage)
    = maskCanvas (loadImageFromUrl (img renderedPage) "2026-01-05" initial)
  ∧ originalBitmap (resetClick renderedPage)
    = originalBitmap (loadImageFromUrl (img renderedPage) "2026-01-05" initial)
  ∧ img (resetClick renderedPage) = img (loadImageFromUrl (img renderedPage) "2026-01-05" initial).
Proof. apply (reset_restores_import renderedPage initial "2026-01-05"). reflexivity. Defined.

Lemma with_cv_twice (c c' : Canvas) (st : Editor) : with_cv c (with_cv c' st) = with_cv c st.
Proof. reflexivity. Qed.

(** X8 — [drawBase] repaints from scratch: doing it twice is doing it once,
    and its result depends on what the canvas showed before through the
    canvas size only. *)
Theorem drawBase_idempotent (st : Editor) (c : Canvas) :
  drawBase (drawBase st) = drawBase st
  ∧ (cv_width c = cv_width (cv st) -> cv_height c = cv_height (cv st) ->
     drawBase (with_cv c st) = drawBase st).
Proof.
  assert (Hsame : ∀ c', cv_width c' = cv_width (cv st) -> cv_height c' = cv_height (cv st) ->
                        drawBase (with_cv c' st) = drawBase st).
  { intros c' Hw Hh.
    pose proof (drawBase_ext (with_cv c' st) st Hw Hh eq_refl eq_refl) as Hcv.
    destruct (drawBase_frame (with_cv c' st)) as (c1 & E1 & _).
    destruct (drawBase_frame st) as (c2 & E2 & _).
    rewrite E1, E2 in *. simpl in Hcv. subst c1. reflexivity. }
  split; [| apply Hsame].
  destruct (drawBase_frame st) as (c2 & E2 & Hw & Hh).
  rewrite E2 at 1. rewrite Hsame by assumption. reflexivity.
Qed.

Lemma drawBase_idempotent_witness :
  drawBase (drawBase paintedPage) = drawBase paintedPage
  ∧ drawBase (with_cv (mkCanvas 2 2 []) paintedPage) = drawBase paintedPage.
Proof.
  destruct (drawBase_idempotent paintedPage (mkCanvas 2 2 [])) as [Htwice Hsame].
  split; [exact Htwice | apply Hsame; reflexivity].
Defined.

Lemma renderClick_loaded measureText (st : Editor) :
  hasImage st = true ->
  renderClick measureText st = setStatus "Đã ghép overlay" (drawAllOverlay measureText st).
Proof. intros Hhas. unfold renderClick. rewrite Hhas. reflexivity. Qed.

(** X9 — rendering twice shows what rendering once shows: the overlay is
    drawn on a fresh base each time and never piles up; the mask, the image
    and the fields are left as they were. *)
Theorem render_idempotent (measureText : Font -> string -> Q) (st : Editor) :
  cv (renderClick measureText (renderClick measureText st)) = cv (renderClick measureText st)
  ∧ maskCanvas (renderClick measureText st) = maskCanvas st
  ∧ img (renderClick measureText st) = img st
  ∧ timeValue (renderClick measureText st) = timeValue st
  ∧ dateValue (renderClick measureText st) = dateValue st
  ∧ dowValue (renderClick measureText st) = dowValue st.
Proof.
  destruct (hasImage st) eqn:Hhas.
  - rewrite (renderClick_loaded measureText st Hhas).
    destruct (drawAllOverlay_frame measureText st) as (c & E & Hw & Hh).
    assert (Hhas' : hasImage (setStatus "Đã ghép overlay" (drawAllOverlay measureText st))
                    = true) by (rewrite E; exact Hhas).
    rewrite (renderClick_loaded measureText _ Hhas').
    split; [| rewrite E; simpl; auto 10].
    change (cv (drawAllOverlay measureText
                  (setStatus "Đã ghép overlay" (drawAllOverlay measureText st)))
            = cv (drawAllOverlay measureText st)).
    apply drawAllOverlay_ext; try assumption; rewrite E; simpl; auto.
  - unfold renderClick. rewrite Hhas. simpl. rewrite Hhas. simpl. auto 10.
Qed.

(** X10 — after the undo button, with an image loaded, the canvas shows the
    image alone: no blurred layer, no overlay text. *)
Theorem clearMask_shows_sharp_image
    (measureText : Font -> string -> Q)
    (fillArcPixel : Q -> Q -> Q -> Z -> Z -> Pixel -> Pixel) (st : Editor) :
  reachable measureText fillArcPixel st ->
  hasImage st = true ->
  cv (clearMaskClick st) = sharpBase st
  ∧ textsDrawn (cv (clearMaskClick st)) = [].
Proof.
  intros Hreach Hhas. apply reachable_inv in Hreach as [(Hw & Hh & Hwf) _].
  assert (Hcv : cv (clearMaskClick st) = sharpBase st).
  { unfold clearMaskClick. rewrite Hhas. simpl.
    rewrite pc_clearRect_full by exact Hwf.
    rewrite drawBase_sharp; [reflexivity |]. simpl.
    apply maskHasSomething_blank; [apply blankPixelCanvas_wf; apply Hwf |].
    apply blankPixels_transparent. }
  split; [exact Hcv | rewrite Hcv; reflexivity].
Qed.

Lemma clearMask_shows_sharp_image_witness :
  cv (clearMaskClick renderedPage) = sharpBase renderedPage
  ∧ textsDrawn (cv (clearMaskClick renderedPage)) = [].
Proof.
  apply (clearMask_shows_sharp_image halfEmMetrics hardDisc renderedPage).
  - unfold renderedPage, paintedPage. repeat apply reach_handle. apply reach_initial.
  - reflexivity.
Defined.

Lemma paint_released fillArcPixel (e : PointerEvent) (st : Editor) :
  isPainting st = false -> paint fillArcPixel e st = st.
Proof. intros Hup. unfold paint. rewrite Hup. simpl. rewrite orb_true_r. reflexivity. Qed.

(** X11 — strokes are painted only while the button or the finger is down:
    after a release, any run of pointer moves leaves the whole state as it
    is. *)
Theorem moves_after_release_paint_nothing
    (measureText : Font -> string -> Q)
    (fillArcPixel : Q -> Q -> Q -> Z -> Z -> Pixel -> Pixel)
    (st : Editor) (moves : list PointerEvent) :
  foldl (fun s e => handle measureText fillArcPixel (MouseMove e) s)
        (handle measureText fillArcPixel MouseUp st) moves
  = handle measureText fillArcPixel MouseUp st
  ∧ foldl (fun s e => handle measureText fillArcPixel (TouchMove e) s)
          (handle measureText fillArcPixel TouchEnd st) moves
    = handle measureText fillArcPixel TouchEnd st.
Proof.
  split; induction moves as [| e moves IH]; simpl; try reflexivity.
  - rewrite paint_released by reflexivity. exact IH.
  - rewrite paint_released by reflexivity. exact IH.
Qed.

(** X12 — a stroke changes the mask's pixels and repaints the canvas, and
    nothing else: the image, the fields, the flags, the alerts, the sizes of
    both canvases and the number of mask pixels are kept. *)
Theorem paint_keeps_the_rest
    (fillArcPixel : Q -> Q -> Q -> Z -> Z -> Pixel -> Pixel)
    (e : PointerEvent) (st : Editor) :
  let st' := paint fillArcPixel e st in
  img st' = img st ∧ hasImage st' = hasImage st
  ∧ timeValue st' = timeValue st ∧ dateValue st' = dateValue st ∧ dowValue st' = dowValue st
  ∧ maskEnabled st' = maskEnabled st ∧ isPainting st' = isPainting st
  ∧ alerts st' = alerts st ∧ statusText st' = statusText st
  ∧ cv_width (cv st') = cv_width (cv st) ∧ cv_height (cv st') = cv_height (cv st)
  ∧ pc_width (maskCanvas st') = pc_width (maskCanvas st)
  ∧ pc_height (maskCanvas st') = pc_height (maskCanvas st)
  ∧ length (pc_data (maskCanvas st')) = length (pc_data (maskCanvas st)).
Proof.
  intros st'. subst st'.
  destruct (paint_frame fillArcPixel e st)
    as [-> | (_ & c & data & -> & Hdata & Hcw & Hch)]; simpl; auto 20.
Qed.

(** ** Pointer coordinates *)

Lemma scale_into (d r : Q) (n : Z) :
  (0 < r)%Q -> (0 <= d <= r)%Q -> 0 <= n ->
  (0 <= d * (inject_Z n / r) <= inject_Z n)%Q.
Proof.
  intros Hr [Hd0 Hdr] Hn. apply inject_Z_le in Hn. change (inject_Z 0) with 0%Q in Hn.
  assert (Hk : (0 <= inject_Z n / r)%Q) by (apply Qle_shift_div_l; [exact Hr | lra]).
  assert (Hrk : (r * (inject_Z n / r) == inject_Z n)%Q) by (field; lra).
  split.
  - apply Qmult_le_0_compat; assumption.
  - rewrite <- Hrk at 2. apply Qmult_le_compat_r; assumption.
Qed.

(** X13 — [getPos] maps the rectangle the canvas is displayed in onto the
    canvas: a point of the rectangle lands between 0 and the canvas width
    and height, the point read being the first touch when the event has
    touches; on a canvas displayed at its true size the mapping is the
    translation by the rectangle's origin. *)
Theorem getPos_inside_canvas (e : PointerEvent) (st : Editor) :
  (0 < rectWidth e)%Q -> (0 < rectHeight e)%Q ->
  0 <= cv_width (cv st) -> 0 <= cv_height (cv st) ->
  let p := eventPoint e in
  let q := getPos e st in
  ((rectLeft e <= p.1 <= rectLeft e + rectWidth e)%Q ->
   (0 <= q.1 <= inject_Z (cv_width (cv st)))%Q)
  ∧ ((rectTop e <= p.2 <= rectTop e + rectHeight e)%Q ->
     (0 <= q.2 <= inject_Z (cv_height (cv st)))%Q)
  ∧ ((rectWidth e == inject_Z (cv_width (cv st)))%Q -> (q.1 == p.1 - rectLeft e)%Q)
  ∧ ((rectHeight e == inject_Z (cv_height (cv st)))%Q -> (q.2 == p.2 - rectTop e)%Q).
Proof.
  intros Hrw Hrh Hw Hh p q. subst p q. unfold getPos, eventPoint.
  destruct (match touches e with t :: _ => t | [] => (clientX e, clientY e) end) as [cx cy].
  simpl. split; [| split; [| split]].
  - intros Hin. apply scale_into; [exact Hrw | lra | exact Hw].
  - intros Hin. apply scale_into; [exact Hrh | lra | exact Hh].
  - intros Hsame. rewrite <- Hsame. field. lra.
  - intros Hsame. rewrite <- Hsame. field. lra.
Qed.

Lemma getPos_inside_canvas_witness :
  ((rectLeft tapEvent <= (eventPoint tapEvent).1 <= rectLeft tapEvent + rectWidth tapEvent)%Q ->
   (0 <= (getPos tapEvent halfSizePage).1 <= inject_Z (cv_width (cv halfSizePage)))%Q)
  ∧ ((rectTop tapEvent <= (eventPoint tapEvent).2 <= rectTop tapEvent + rectHeight tapEvent)%Q ->
     (0 <= (getPos tapEvent halfSizePage).2 <= inject_Z (cv_height (cv halfSizePage)))%Q)
  ∧ ((rectWidth tapEvent == inject_Z (cv_width (cv halfSizePage)))%Q ->
     ((getPos tapEvent halfSizePage).1 == (eventPoint tapEvent).1 - rectLeft tapEvent)%Q)
  ∧ ((rectHeight tapEvent == inject_Z (cv_height (cv halfSizePage)))%Q ->
     ((getPos tapEvent halfSizePage).2 == (eventPoint tapEvent).2 - rectTop tapEvent)%Q).
Proof.
  apply (getPos_inside_canvas tapEvent halfSizePage); vm_compute; congruence.
Defined.

Example tap_lands_at_500_250 :
  ((getPos tapEvent halfSizePage).1 == 500)%Q ∧ ((getPos tapEvent halfSizePage).2 == 250)%Q.
Proof. split; reflexivity. Qed.

(** ** The watermark and the fonts *)

Lemma Math_round_near (x : Q) :
  (x - (1 # 2) < inject_Z (Math_round x) <= x + (1 # 2))%Q.
Proof.
  unfold Math_round. pose proof (Qfloor_le (x + (1 # 2))) as Hle.
  pose proof (Qlt_floor (x + (1 # 2))) as Hlt.
  rewrite inject_Z_plus in Hlt. change (inject_Z 1) with 1%Q in Hlt.
  split; lra.
Qed.

Lemma fitFontToWidth_range measureText text tpl startSize minSize maxWidth :
  minSize <= startSize ->
  minSize <= fitFontToWidth measureText text tpl startSize minSize maxWidth <= startSize.
Proof. intros Hle. unfold fitFontToWidth, fitFrom. apply fitLoop_bounds. lia. Qed.

(** X14 — the span [drawWatermark] returns clears the brand name: with
    a first half of the brand name that has no negative width, both halves of the brand name start
    at least 11.5 pixels right of [W - reserved]; the reserved span is the
    right padding (10 to 40), the rounded width of the brand name and a gap
    of 12 to 40; the brand name is set in 12 to 44 pixels and the caption
    in 10 to 24. *)
Theorem watermark_reserved_span
    (measureText : Font -> string -> Q) (W H : Z) (c : Canvas) :
  (∀ s, 12 <= s -> (0 <= measureText (font700 s) timePart)%Q) ->
  let reserved := (drawWatermark measureText W H c).2 in
  Forall (startsRightOf (inject_Z (W - reserved) + (23 # 2))) (watermarkOps measureText W H)
  ∧ Forall (fontWithin 10 44) (watermarkOps measureText W H)
  ∧ textsDrawn (mkCanvas W H (watermarkOps measureText W H)) = [subText; timePart; markPart]
  ∧ (∃ wmFont, 12 <= wmFont <= 44
       ∧ 22 + Math_round (measureText (font700 wmFont) fullText) <= reserved
         <= 80 + Math_round (measureText (font700 wmFont) fullText)).
Proof.
  intros Hpos reserved. subst reserved. unfold watermarkOps, drawWatermark.
  cbn [fst snd cv_ops draw app].
  set (wmFont := fitFontToWidth measureText fullText font700
                   (clamp (Math_round (inject_Z (Z.min W H) * 0.050)) 16 44) 12
                   (inject_Z (Math_round (inject_Z W * 0.35)))).
  assert (HwmFont : 12 <= wmFont <= 44).
  { pose proof (clamp_bounds (Math_round (inject_Z (Z.min W H) * 0.050)) 16 44 ltac:(lia)).
    pose proof (fitFontToWidth_range measureText fullText font700
                  (clamp (Math_round (inject_Z (Z.min W H) * 0.050)) 16 44) 12
                  (inject_Z (Math_round (inject_Z W * 0.35))) ltac:(lia)).
    fold wmFont in H1. lia. }
  pose proof (clamp_bounds (Math_round (inject_Z wmFont * 0.55)) 10 24 ltac:(lia)) as Hsub.
  pose proof (clamp_bounds (Math_round (inject_Z W * 0.02)) 10 40 ltac:(lia)) as HpadR.
  pose proof (clamp_bounds (Math_round (inject_Z W * 0.03)) 12 40 ltac:(lia)) as Hgap.
  set (padR := clamp (Math_round (inject_Z W * 0.02)) 10 40) in *.
  set (gap := clamp (Math_round (inject_Z W * 0.03)) 12 40) in *.
  set (wmWidth := measureText (font700 wmFont) fullText).
  pose proof (Math_round_near wmWidth) as Hround.
  pose proof (Hpos wmFont ltac:(lia)) as HtimeW.
  split; [| split; [| split]].
  - assert (Hlimit : (inject_Z (W - (padR + Math_round wmWidth + gap)) + (23 # 2)
                      <= inject_Z W - inject_Z padR - wmWidth)%Q).
    { rewrite inject_Z_sub, !inject_Z_plus.
      destruct Hgap as [Hgap _]. apply inject_Z_le in Hgap.
      change (inject_Z 12) with 12%Q in Hgap. lra. }
    repeat apply Forall_cons_2; [ .. | apply Forall_nil_2]; cbn [startsRightOf].
    + exact I.
    + exact Hlimit.
    + lra.
  - repeat apply Forall_cons_2; [ .. | apply Forall_nil_2]; cbn [fontWithin font700 font_px]; lia.
  - reflexivity.
  - exists wmFont. split; [exact HwmFont |]. fold wmWidth. lia.
Qed.

Lemma halfEmMetrics_nonneg (f : Font) (t : string) :
  0 <= font_px f -> (0 <= halfEmMetrics f t)%Q.
Proof.
  intros Hpx. unfold halfEmMetrics. apply Qle_shift_div_l; [reflexivity |].
  rewrite Qmult_0_l. apply Qmult_le_0_compat.
  - change 0%Q with (inject_Z 0). apply inject_Z_le. exact Hpx.
  - change 0%Q with (inject_Z 0). apply inject_Z_le. lia.
Qed.

Lemma watermark_reserved_span_witness :
  Forall (startsRightOf
            (inject_Z (1200 - (drawWatermark halfEmMetrics 1200 1600 (mkCanvas 1200 1600 [])).2)
             + (23 # 2)))
         (watermarkOps halfEmMetrics 1200 1600)
  ∧ Forall (fontWithin 10 44) (watermarkOps halfEmMetrics 1200 1600)
  ∧ textsDrawn (mkCanvas 1200 1600 (watermarkOps halfEmMetrics 1200 1600))
    = [subText; timePart; markPart]
  ∧ (∃ wmFont, 12 <= wmFont <= 44
       ∧ 22 + Math_round (halfEmMetrics (font700 wmFont) fullText)
         <= (drawWatermark halfEmMetrics 1200 1600 (mkCanvas 1200 1600 [])).2
         <= 80 + Math_round (halfEmMetrics (font700 wmFont) fullText)).
Proof.
  apply (watermark_reserved_span halfEmMetrics 1200 1600 (mkCanvas 1200 1600 [])).
  intros s Hs. apply halfEmMetrics_nonneg. simpl. lia.
Defined.

(** ** The left cluster's fonts and vertical order *)

Lemma Math_round_tenths (n k : Z) (x : Q) :
  (x == inject_Z n * (inject_Z k / inject_Z 100))%Q ->
  Math_round x = (2 * (n * k) + 100) / 200.
Proof. intros ->. rewrite Math_round_scaled by lia. reflexivity. Qed.

Section LeftClusterShape.

Variable measureText : Font -> string -> Q.
Variables W H reservedRight : Z.
Variables timeVal dateText dowText : string.

Lemma left_cluster_fonts :
  let g := leftLayout measureText W H reservedRight timeVal dateText dowText in
  10 <= addrFont g <= 34
  ∧ 18 <= timeFont g <= 82
  ∧ 10 <= metaFont g <= Z.max 10 (Z.min 36 (Math_round (inject_Z (timeFont g) * 0.40))).
Proof.
  intros g. split; [| split].
  - pose proof (clamp_bounds (Math_round (inject_Z (Z.min W H) * 0.040)) 12 34 ltac:(lia)).
    pose proof (fitFontToWidth_range measureText addr1 font400
                  (clamp (Math_round (inject_Z (Z.min W H) * 0.040)) 12 34) 10
                  (inject_Z (maxWidth g)) ltac:(lia)) as Hfit.
    change (10 <= addrFont g <= clamp (Math_round (inject_Z (Z.min W H) * 0.040)) 12 34) in Hfit.
    lia.
  - pose proof (clamp_bounds (Math_round (inject_Z (Z.min W H) * 0.085)) 28 82 ltac:(lia)).
    pose proof (fitFontToWidth_range measureText timeVal font700
                  (clamp (Math_round (inject_Z (Z.min W H) * 0.085)) 28 82) 18
                  (inject_Z (maxTimeW g)) ltac:(lia)) as Hfit.
    change (18 <= timeFont g <= clamp (Math_round (inject_Z (Z.min W H) * 0.085)) 28 82) in Hfit.
    lia.
  - pose proof (clamp_bounds (Math_round (inject_Z (timeFont g) * 0.40)) 10 36 ltac:(lia)).
    pose proof (fitFontToWidth_range measureText
                  (if (js_length dowText <=? js_length dateText)%nat then dateText else dowText)
                  font400
                  (clamp (Math_round (inject_Z (timeFont g) * 0.40)) 10 36) 10
                  (metaMaxW g) ltac:(lia)) as Hfit.
    change (10 <= metaFont g <= clamp (Math_round (inject_Z (timeFont g) * 0.40)) 10 36) in Hfit.
    unfold clamp in Hfit. exact Hfit.
Qed.

End LeftClusterShape.

(** X15 — the vertical order of the left cluster, for every canvas, field
    values and text metrics: the divider runs from above the time's
    baseline to below it; the lines of the date and of the weekday, each
    one font size high, lie between the divider's ends, the date above the
    weekday without overlap; the time's baseline is at least 10 pixels
    above the two address lines, whose line height is at least their font
    size, and the lower address line sits 10 to 70 pixels above the bottom
    edge.  The fonts stay in their ranges: address 10 to 34, time 18 to 82,
    date and weekday 10 to 36 pixels. *)
Theorem left_cluster_vertical_order
    (measureText : Font -> string -> Q) (W H reservedRight : Z)
    (timeVal dateText dowText : string) :
  let g := leftLayout measureText W H reservedRight timeVal dateText dowText in
  (10 <= addrFont g <= 34 ∧ 18 <= timeFont g <= 82 ∧ 10 <= metaFont g <= 36)
  ∧ lineTop g < timeBaselineY g < lineBottom g
  ∧ lineTop g <= dateY g - metaFont g
  ∧ dateY g <= dowY g - metaFont g
  ∧ dowY g <= lineBottom g
  ∧ timeBaselineY g + 10 <= addrBottomY g - 2 * addrLineH g
  ∧ addrFont g <= addrLineH g
  ∧ H - 70 <= addrBottomY g <= H - 10.
Proof.
  intros g.
  destruct (left_cluster_fonts measureText W H reservedRight timeVal dateText dowText)
    as (Haddr & Htime & Hmeta).
  fold g in Haddr, Htime, Hmeta.
  assert (HlineTop : lineTop g = timeBaselineY g
                     - Math_round (inject_Z (timeFont g) * 0.80 * timeScaleY)) by reflexivity.
  assert (HlineBottom : lineBottom g = timeBaselineY g
                        + Math_round (inject_Z (timeFont g) * 0.10 * timeScaleY)) by reflexivity.
  assert (HdateY : dateY g = lineTop g + metaFont g
                   + Math_round (inject_Z (metaFont g) * 0.12)) by reflexivity.
  assert (HdowY : dowY g = lineBottom g - Math_round (inject_Z (metaFont g) * 0.12))
    by reflexivity.
  assert (Hbase : timeBaselineY g = addrBottomY g - addrLineH g * 2
                  - clamp (Math_round (inject_Z (Z.min W H) * 0.030)) 10 36) by reflexivity.
  assert (HlineH : addrLineH g = Math_round (inject_Z (addrFont g) * 1.18)) by reflexivity.
  assert (Hbottom : addrBottomY g = H - clamp (Math_round (inject_Z H * 0.04)) 10 70)
    by reflexivity.
  pose proof (clamp_bounds (Math_round (inject_Z (Z.min W H) * 0.030)) 10 36 ltac:(lia)) as Hgap.
  pose proof (clamp_bounds (Math_round (inject_Z H * 0.04)) 10 70 ltac:(lia)) as Hpad.
  rewrite (Math_round_tenths (timeFont g) 40) in Hmeta by (simpl; field).
  rewrite (Math_round_tenths (timeFont g) 120) in HlineTop by (unfold timeScaleY; simpl; field).
  rewrite (Math_round_tenths (timeFont g) 15) in HlineBottom by (unfold timeScaleY; simpl; field).
  rewrite (Math_round_tenths (metaFont g) 12) in HdateY, HdowY by (simpl; field).
  rewrite (Math_round_tenths (addrFont g) 118) in HlineH by (simpl; field).
  generalize dependent (addrFont g). generalize dependent (timeFont g).
  generalize dependent (metaFont g). generalize dependent (lineTop g).
  generalize dependent (lineBottom g). generalize dependent (dateY g).
  generalize dependent (dowY g). generalize dependent (timeBaselineY g).
  generalize dependent (addrLineH g). generalize dependent (addrBottomY g).
  clear g. intros. Z.div_mod_to_equations. lia.
Qed.

(** ** What a render writes *)

Lemma or_else_nonempty (a b : string) : b ≠ EmptyString -> or_else a b ≠ EmptyString.
Proof. intros Hb. destruct a; [exact Hb | discriminate]. Qed.

Lemma or_else_keeps (a b : string) : a ≠ EmptyString -> or_else a b = a.
Proof. intros Ha. destruct a; [congruence | reflexivity]. Qed.

(** X16 — with an image loaded, a render writes exactly eight texts, in
    this order: the caption, the two halves of the brand name, the time,
    the date, the weekday and the two address lines; none of them is
    empty; a time or weekday field that is not empty is written as it is,
    and a date field with two hyphens is written as [formatDateDDMMYYYY]
    gives it. *)
Theorem render_texts (measureText : Font -> string -> Q) (st : Editor) :
  hasImage st = true ->
  ∃ t d w,
    textsDrawn (cv (renderClick measureText st))
    = [subText; timePart; markPart; t; d; w; addr2; addr1]
    ∧ Forall (fun s => s ≠ EmptyString) (textsDrawn (cv (renderClick measureText st)))
    ∧ (timeValue st ≠ EmptyString -> t = timeValue st)
    ∧ (count_char hyphen (dateValue st) = 2%nat -> d = formatDateDDMMYYYY (dateValue st))
    ∧ (dowValue st ≠ EmptyString -> w = dowValue st).
Proof.
  intros Hhas. rewrite (renderClick_loaded measureText st Hhas).
  change (cv (setStatus "Đã ghép overlay" (drawAllOverlay measureText st)))
    with (cv (drawAllOverlay measureText st)).
  rewrite (drawAllOverlay_texts measureText st Hhas).
  eexists _, _, _. split; [reflexivity |]. split; [| split; [| split]].
  - repeat apply Forall_cons_2; [ .. | apply Forall_nil_2];
      try discriminate; apply or_else_nonempty; discriminate.
  - apply or_else_keeps.
  - intros Hcount. apply or_else_keeps. intros Hempty.
    apply formatDate_empty_iff_helper in Hempty. contradiction.
  - apply or_else_keeps.
Qed.

Lemma render_texts_witness :
  ∃ t d w,
    textsDrawn (cv (renderClick halfEmMetrics loadedPage))
    = [subText; timePart; markPart; t; d; w; addr2; addr1]
    ∧ Forall (fun s => s ≠ EmptyString) (textsDrawn (cv (renderClick halfEmMetrics loadedPage)))
    ∧ (timeValue loadedPage ≠ EmptyString -> t = timeValue loadedPage)
    ∧ (count_char hyphen (dateValue loadedPage) = 2%nat ->
       d = formatDateDDMMYYYY (dateValue loadedPage))
    ∧ (dowValue loadedPage ≠ EmptyString -> w = dowValue loadedPage).
Proof. apply (render_texts halfEmMetrics loadedPage). reflexivity. Defined.

(** * Further properties of the account handling *)

Local Open Scope list_scope.

(** ** Looking rows up and adding them *)

Lemma select_user_none (db : list UserRow) (username : string) :
  select_user db username = None <-> username ∉ u_username <$> db.
Proof.
  unfold select_user. induction db as [| r db IH]; simpl.
  - split; [intros _; apply not_elem_of_nil | reflexivity].
  - rewrite not_elem_of_cons. destruct (decide (u_username r = username)) as [Heq | Hne].
    + rewrite bool_decide_eq_true_2 by exact Heq. split; [discriminate | intros [Hk _]; congruence].
    + rewrite bool_decide_eq_false_2 by exact Hne. rewrite IH. split; [intros ?; split; [congruence | assumption] | tauto].
Qed.

Lemma select_user_some (db : list UserRow) (username : string) (row : UserRow) :
  select_user db username = Some row -> row ∈ db ∧ u_username row = username.
Proof.
  unfold select_user. intros Hfind. apply List.find_some in Hfind as [Hin Hname].
  apply bool_decide_eq_true_1 in Hname. split; [apply list_elem_of_In; exact Hin | exact Hname].
Qed.

Lemma select_role_user (db : list UserRow) (username : string) :
  select_role db username = u_role <$> select_user db username.
Proof. reflexivity. Qed.

Lemma select_user_app (db : list UserRow) (row : UserRow) (username : string) :
  select_user (db ++ [row]) username
  = match select_user db username with
    | Some r => Some r
    | None => if bool_decide (u_username row = username) then Some row else None
    end.
Proof.
  unfold select_user. induction db as [| r db IH]; simpl; [reflexivity |].
  destruct (bool_decide (u_username r = username)); [reflexivity | exact IH].
Qed.

Lemma count_admins_app (db : list UserRow) (row : UserRow) :
  count_admins (db ++ [row])
  = (count_admins db + if decide (u_role row = "admin") then 1 else 0)%nat.
Proof.
  unfold count_admins. rewrite filter_app, length_app. f_equal.
  destruct (decide (u_role row = "admin")).
  - rewrite filter_cons_True by assumption. reflexivity.
  - rewrite filter_cons_False by assumption. reflexivity.
Qed.

Lemma NoDup_names_app (db : list UserRow) (row : UserRow) :
  NoDup (u_username <$> db) -> u_username row ∉ u_username <$> db ->
  NoDup (u_username <$> db ++ [row]).
Proof.
  intros Hnodup Hfresh. rewrite fmap_app. apply NoDup_app. split; [exact Hnodup |].
  split; [| apply NoDup_singleton].
  intros x Hx Hrow. simpl in Hrow. apply list_elem_of_singleton in Hrow. congruence.
Qed.

(** An [INSERT] with one of the two roles fails exactly on a taken name. *)
Lemma insert_user_cases generate_password_hash (f : Fresh) (username password role : string) (db : list UserRow) :
  role = "admin" ∨ role = "user" ->
  ((username ∈ u_username <$> db)
   ∧ insert_user generate_password_hash f username password role db = None)
  ∨ ((username ∉ u_username <$> db)
     ∧ insert_user generate_password_hash f username password role db
       = Some (db ++ [mkUserRow (new_id f) username
                        (generate_password_hash (new_salt f) password) role])).
Proof.
  intros Hrole. unfold insert_user.
  destruct (decide (username ∈ u_username <$> db)) as [Hin | Hout].
  - left. rewrite bool_decide_eq_true_2 by exact Hin. auto.
  - right. rewrite bool_decide_eq_false_2 by exact Hout.
    rewrite bool_decide_eq_true_2 by exact Hrole. auto.
Qed.

Lemma ensure_user_cases generate_password_hash (f : Fresh) (username password role : string) (db : list UserRow) :
  role = "admin" ∨ role = "user" ->
  ((username ∈ u_username <$> db)
   ∧ ensure_user generate_password_hash f username password role db = (None, db))
  ∨ ((username ∉ u_username <$> db)
     ∧ ensure_user generate_password_hash f username password role db
       = (None, db ++ [mkUserRow (new_id f) username
                         (generate_password_hash (new_salt f) password) role])).
Proof.
  intros Hrole. unfold ensure_user.
  destruct (select_user db username) as [row |] eqn:Hsel.
  - left. split; [| reflexivity].
    apply select_user_some in Hsel as [Hin <-]. apply list_elem_of_fmap. eauto.
  - right. apply select_user_none in Hsel.
    destruct (insert_user_cases generate_password_hash f username password role db Hrole) as [[Hin _] | [_ ->]];
      [contradiction | auto].
Qed.

(** What [init_db] returns: no exception, and the table with the default
    rows that were missing appended. *)
Lemma init_db_cases generate_password_hash adminPassword userPassword (f1 f2 : Fresh) (db : list UserRow) :
  ∃ added,
    init_db generate_password_hash adminPassword userPassword f1 f2 db = (None, db ++ added)
    ∧ added = ((if bool_decide ("admin" ∈ u_username <$> db) then []
                else [mkUserRow (new_id f1) "admin"
                        (generate_password_hash (new_salt f1) adminPassword) "admin"])
               ++ (if bool_decide ("user" ∈ u_username <$> db) then []
                   else [mkUserRow (new_id f2) "user"
                           (generate_password_hash (new_salt f2) userPassword) "user"]))%list.
Proof.
  eexists. split; [| reflexivity]. unfold init_db.
  destruct (ensure_user_cases generate_password_hash f1 "admin" adminPassword "admin" db ltac:(auto))
    as [[Hin ->] | [Hout ->]].
  - rewrite bool_decide_eq_true_2 by exact Hin. simpl.
    destruct (ensure_user_cases generate_password_hash f2 "user" userPassword "user" db ltac:(auto))
      as [[Hin' ->] | [Hout' ->]].
    + rewrite bool_decide_eq_true_2 by exact Hin'. now rewrite app_nil_r.
    + rewrite bool_decide_eq_false_2 by exact Hout'. reflexivity.
  - rewrite bool_decide_eq_false_2 by exact Hout.
    destruct (ensure_user_cases generate_password_hash f2 "user" userPassword "user"
                (db ++ [mkUserRow (new_id f1) "admin"
                          (generate_password_hash (new_salt f1) adminPassword) "admin"])
                ltac:(auto)) as [[Hin' ->] | [Hout' ->]].
    + rewrite fmap_app, elem_of_app in Hin'. destruct Hin' as [Hin' | Hin'].
      * rewrite bool_decide_eq_true_2 by exact Hin'. now rewrite app_nil_r.
      * simpl in Hin'. apply list_elem_of_singleton in Hin'. discriminate.
    + rewrite fmap_app, elem_of_app in Hout'.
      rewrite bool_decide_eq_false_2 by tauto. now rewrite <- app_assoc.
Qed.


(** ** The default accounts *)

(** X17 — [init_db] never raises; it leaves the rows of the table in place
    and appends the default accounts that are missing, so that afterwards
    both ["admin"] and ["user"] are names of the table; it adds an admin
    only when no row is named ["admin"], keeps the names unique, and
    running it again changes nothing. *)
Theorem init_db_ensures_defaults
    (generate_password_hash : string -> string -> string)
    (adminPassword userPassword : string) (f1 f2 g1 g2 : Fresh) (db : list UserRow) :
  let r := init_db generate_password_hash adminPassword userPassword f1 f2 db in
  r.1 = None
  ∧ (∃ added, r.2 = db ++ added)
  ∧ "admin" ∈ u_username <$> r.2
  ∧ "user" ∈ u_username <$> r.2
  ∧ count_admins r.2
    = (count_admins db + if bool_decide ("admin" ∈ u_username <$> db) then 0 else 1)%nat
  ∧ (NoDup (u_username <$> db) -> NoDup (u_username <$> r.2))
  ∧ init_db generate_password_hash adminPassword userPassword g1 g2 r.2 = (None, r.2).
Proof.
  intros r. subst r.
  destruct (init_db_cases generate_password_hash adminPassword userPassword f1 f2 db)
    as (added & -> & Hadded).
  cbn [fst snd].
  assert (Hadmin : "admin" ∈ u_username <$> db ++ added).
  { rewrite fmap_app, elem_of_app. subst added.
    destruct (decide ("admin" ∈ u_username <$> db)) as [Hin | Hout]; [left; exact Hin | right].
    rewrite bool_decide_eq_false_2 by exact Hout. simpl. apply list_elem_of_here. }
  assert (Huser : "user" ∈ u_username <$> db ++ added).
  { rewrite fmap_app, elem_of_app. subst added.
    destruct (decide ("user" ∈ u_username <$> db)) as [Hin | Hout]; [left; exact Hin | right].
    rewrite (bool_decide_eq_false_2 ("user" ∈ _)) by exact Hout.
    rewrite fmap_app, elem_of_app. right. simpl. apply list_elem_of_here. }
  split; [reflexivity | split; [eauto | split; [exact Hadmin | split; [exact Huser |]]]].
  split; [| split].
  - subst added.
    destruct (bool_decide ("admin" ∈ u_username <$> db));
      destruct (bool_decide ("user" ∈ u_username <$> db)); simpl app.
    + rewrite app_nil_r. lia.
    + rewrite count_admins_app. cbn [u_role].
      destruct (decide ("user" = "admin")) as [E | E]; [discriminate E | lia].
    + rewrite count_admins_app. cbn [u_role].
      destruct (decide ("admin" = "admin")) as [E | E]; [lia | congruence].
    + match goal with
      | |- context [db ++ [?a; ?b]] =>
          change (db ++ [a; b]) with (db ++ [a] ++ [b]); rewrite (app_assoc db [a] [b])
      end.
      rewrite !count_admins_app. cbn [u_role].
      destruct (decide ("user" = "admin")) as [E | E]; [discriminate E |].
      destruct (decide ("admin" = "admin")) as [E' | E']; [lia | congruence].
  - intros Hnodup. subst added.
    destruct (decide ("admin" ∈ u_username <$> db)) as [Ha | Ha];
      destruct (decide ("user" ∈ u_username <$> db)) as [Hu | Hu].
    + rewrite !bool_decide_eq_true_2 by assumption. simpl. now rewrite app_nil_r.
    + rewrite bool_decide_eq_true_2, bool_decide_eq_false_2 by assumption. simpl.
      apply NoDup_names_app; assumption.
    + rewrite bool_decide_eq_false_2, bool_decide_eq_true_2 by assumption. simpl.
      apply NoDup_names_app; assumption.
    + rewrite !bool_decide_eq_false_2 by assumption. simpl app.
      match goal with
      | |- context [db ++ [?a; ?b]] =>
          change (db ++ [a; b]) with (db ++ [a] ++ [b]); rewrite (app_assoc db [a] [b])
      end.
      apply NoDup_names_app; [apply NoDup_names_app; assumption |].
      simpl. rewrite fmap_app, elem_of_app. intros [Hin | Hin]; [contradiction |].
      simpl in Hin. apply list_elem_of_singleton in Hin. discriminate.
  - destruct (init_db_cases generate_password_hash adminPassword userPassword g1 g2
                (db ++ added)) as (again & -> & Hagain).
    rewrite !bool_decide_eq_true_2 in Hagain by assumption. subst again.
    now rewrite app_nil_r.
Qed.

Lemma init_db_ensures_defaults_witness :
  let r := init_db saltedHash "admin123" "user123" freshOne freshTwo twoAdmins in
  r.1 = None
  ∧ (∃ added, r.2 = twoAdmins ++ added)
  ∧ "admin" ∈ u_username <$> r.2
  ∧ "user" ∈ u_username <$> r.2
  ∧ count_admins r.2
    = (count_admins twoAdmins
       + if bool_decide ("admin" ∈ u_username <$> twoAdmins) then 0 else 1)%nat
  ∧ (NoDup (u_username <$> twoAdmins) -> NoDup (u_username <$> r.2))
  ∧ init_db saltedHash "admin123" "user123" freshTwo freshThree r.2 = (None, r.2).
Proof.
  apply (init_db_ensures_defaults saltedHash "admin123" "user123"
           freshOne freshTwo freshTwo freshThree twoAdmins).
Defined.

(** ** Creating users *)

Lemma admin_required_cases
    (fn : Request -> gmap string SessionValue -> list UserRow ->
          Outcome * gmap string SessionValue * list UserRow)
    (req : Request) (session : gmap string SessionValue) (db : list UserRow) :
  (session !! "uid" ≠ None ∧ session !! "role" = Some (SStr "admin")
   ∧ admin_required fn req session db = fn req session db)
  ∨ ((session !! "uid" = None ∨ session !! "role" ≠ Some (SStr "admin"))
     ∧ (admin_required fn req session db
        = (Returned (Redirect ("/login?next=" +:+ path req)), session, db)
        ∨ admin_required fn req session db = (Returned Forbidden, session, db))).
Proof.
  unfold admin_required. destruct (session !! "uid") as [v |] eqn:Huid.
  - destruct (decide (session !! "role" = Some (SStr "admin"))) as [Hrole | Hrole].
    + left. rewrite bool_decide_eq_true_2 by exact Hrole. auto.
    + right. rewrite bool_decide_eq_false_2 by exact Hrole. auto.
  - right. auto.
Qed.

Lemma admin_create_user_body_cases strip generate_password_hash (f : Fresh) (req : Request)
    (session : gmap string SessionValue) (db : list UserRow) :
  let username := strip (form_get_or_empty req "username") in
  let password := form_get_or_empty req "password" in
  admin_create_user_body strip generate_password_hash f req session db
  = (Returned (Redirect "/admin"), session,
     if bool_decide (username ≠ EmptyString ∧ password ≠ EmptyString
                     ∧ username ∉ u_username <$> db)
     then db ++ [mkUserRow (new_id f) username
                   (generate_password_hash (new_salt f) password) "user"]
     else db).
Proof.
  intros username password. unfold admin_create_user_body. fold username password.
  destruct username as [| c u] eqn:Hu.
  { rewrite bool_decide_eq_false_2 by (intros [Hk _]; congruence). reflexivity. }
  destruct password as [| c' p] eqn:Hp.
  { rewrite bool_decide_eq_false_2 by (intros (_ & Hk & _); congruence). reflexivity. }
  destruct (insert_user_cases generate_password_hash f (String c u) (String c' p) "user" db
              ltac:(auto)) as [[Hin ->] | [Hout ->]].
  - rewrite bool_decide_eq_false_2 by (intros (_ & _ & Hk); contradiction). reflexivity.
  - rewrite bool_decide_eq_true_2 by (repeat split; [discriminate | discriminate | exact Hout]).
    reflexivity.
Qed.

(** X18 — [POST /admin/create_user] never raises and never touches the
    session; it leaves the table as it is or appends one row with the role
    ["user"], the stripped name and the hash of the password, and it
    appends only for an admin session, a name and a password that are not
    empty, and a name no row has yet; so the number of admins and the
    uniqueness of the names are kept. *)
Theorem create_user_adds_a_plain_user
    (strip : string -> string) (generate_password_hash : string -> string -> string)
    (f : Fresh) (req : Request) (session : gmap string SessionValue) (db : list UserRow) :
  let r := admin_create_user strip generate_password_hash f req session db in
  let username := strip (form_get_or_empty req "username") in
  let password := form_get_or_empty req "password" in
  (∃ resp, r.1.1 = Returned resp)
  ∧ r.1.2 = session
  ∧ (r.2 = db
     ∨ (r.2 = db ++ [mkUserRow (new_id f) username
                       (generate_password_hash (new_salt f) password) "user"]
        ∧ session !! "role" = Some (SStr "admin")
        ∧ username ≠ EmptyString ∧ password ≠ EmptyString
        ∧ username ∉ u_username <$> db))
  ∧ count_admins r.2 = count_admins db
  ∧ (NoDup (u_username <$> db) -> NoDup (u_username <$> r.2)).
Proof.
  intros r username password. subst r. unfold admin_create_user.
  destruct (admin_required_cases (admin_create_user_body strip generate_password_hash f)
              req session db) as [(_ & Hrole & ->) | [_ [-> | ->]]];
    cbn [fst snd]; try (split; [eauto | split; [reflexivity | auto]]).
  rewrite admin_create_user_body_cases. fold username password. cbn [fst snd].
  split; [eauto | split; [reflexivity |]].
  destruct (decide (username ≠ EmptyString ∧ password ≠ EmptyString
                    ∧ username ∉ u_username <$> db)) as [(Hu & Hp & Hfresh) | Hno].
  - rewrite bool_decide_eq_true_2 by auto. split; [right; auto 10 | split].
    + rewrite count_admins_app. cbn [u_role].
      destruct (decide ("user" = "admin")) as [E | E]; [discriminate E | lia].
    + intros Hnodup. apply NoDup_names_app; assumption.
  - rewrite bool_decide_eq_false_2 by exact Hno. auto.
Qed.

Lemma create_user_adds_a_plain_user_witness :
  let r := admin_create_user noBlanks saltedHash freshThree createAlice adminSession
             firstTable in
  (∃ resp, r.1.1 = Returned resp)
  ∧ r.1.2 = adminSession
  ∧ (r.2 = firstTable
     ∨ (r.2 = firstTable ++ [mkUserRow (new_id freshThree)
                               (noBlanks (form_get_or_empty createAlice "username"))
                               (saltedHash (new_salt freshThree)
                                  (form_get_or_empty createAlice "password")) "user"]
        ∧ adminSession !! "role" = Some (SStr "admin")
        ∧ noBlanks (form_get_or_empty createAlice "username") ≠ EmptyString
        ∧ form_get_or_empty createAlice "password" ≠ EmptyString
        ∧ noBlanks (form_get_or_empty createAlice "username") ∉ u_username <$> firstTable))
  ∧ count_admins r.2 = count_admins firstTable
  ∧ (NoDup (u_username <$> firstTable) -> NoDup (u_username <$> r.2)).
Proof.
  apply (create_user_adds_a_plain_user noBlanks saltedHash freshThree createAlice
           adminSession firstTable).
Defined.

Example alice_is_created :
  (admin_create_user noBlanks saltedHash freshThree createAlice adminSession firstTable).2
  = [ mkUserRow 1 "admin" "s1$admin123" "admin";
      mkUserRow 2 "user" "s2$user123" "user";
      mkUserRow 3 "alice" "s3$s3cret" "user" ].
Proof. vm_compute. reflexivity. Qed.

Lemma create_user_cases_helper strip generate_password_hash (f : Fresh) (req : Request)
    (session : gmap string SessionValue) (db : list UserRow) :
  (admin_create_user strip generate_password_hash f req session db).2 = db
  ∨ ((admin_create_user strip generate_password_hash f req session db).2
     = db ++ [mkUserRow (new_id f) (strip (form_get_or_empty req "username"))
                (generate_password_hash (new_salt f) (form_get_or_empty req "password"))
                "user"]
     ∧ strip (form_get_or_empty req "username") ∉ u_username <$> db).
Proof.
  unfold admin_create_user.
  destruct (admin_required_cases (admin_create_user_body strip generate_password_hash f)
              req session db) as [(_ & _ & ->) | [_ [-> | ->]]]; auto.
  rewrite admin_create_user_body_cases. cbn [snd].
  destruct (decide (strip (form_get_or_empty req "username") ≠ EmptyString
                    ∧ form_get_or_empty req "password" ≠ EmptyString
                    ∧ strip (form_get_or_empty req "username") ∉ u_username <$> db))
    as [(Hu & Hp & Hfresh) | Hno].
  - rewrite bool_decide_eq_true_2 by (split; [| split]; assumption). auto.
  - rewrite bool_decide_eq_false_2 by exact Hno. auto.
Qed.

(** ** Who may change the table *)

(** X19 — without an admin session the two admin routes change nothing:
    with no ["uid"] in the session they redirect to the login page, with a
    role other than ["admin"] they answer 403, and in both cases the table
    and the session are left as they are; a logout empties the session, so
    that the admin routes then redirect to the login page. *)
Theorem admin_routes_need_an_admin_session
    (strip : string -> string) (int : string -> option Z)
    (generate_password_hash : string -> string -> string)
    (f : Fresh) (req : Request) (session : gmap string SessionValue) (db : list UserRow) :
  let toLogin := (Returned (Redirect ("/login?next=" +:+ path req))) in
  (session !! "uid" = None ->
   admin_delete_user strip int req session db = (toLogin, session, db)
   ∧ admin_create_user strip generate_password_hash f req session db = (toLogin, session, db))
  ∧ (session !! "uid" ≠ None -> session !! "role" ≠ Some (SStr "admin") ->
     admin_delete_user strip int req session db = (Returned Forbidden, session, db)
     ∧ admin_create_user strip generate_password_hash f req session db
       = (Returned Forbidden, session, db))
  ∧ (logout session).2 = ∅
  ∧ admin_delete_user strip int req (logout session).2 db = (toLogin, ∅, db)
  ∧ admin_create_user strip generate_password_hash f req (logout session).2 db
    = (toLogin, ∅, db).
Proof.
  intros toLogin. subst toLogin. unfold admin_delete_user, admin_create_user, admin_required.
  split; [| split; [| split; [reflexivity | split; reflexivity]]].
  - intros ->. split; reflexivity.
  - intros Huid Hrole. destruct (session !! "uid"); [| congruence].
    rewrite bool_decide_eq_false_2 by exact Hrole. split; reflexivity.
Qed.

Lemma admin_routes_need_an_admin_session_witness :
  (admin_delete_user noBlanks decimalInt deleteAdmin plainSession firstTable
   = (Returned Forbidden, plainSession, firstTable)
   ∧ admin_create_user noBlanks saltedHash freshThree deleteAdmin plainSession firstTable
     = (Returned Forbidden, plainSession, firstTable))
  ∧ (logout plainSession).2 = ∅.
Proof.
  destruct (admin_routes_need_an_admin_session noBlanks decimalInt saltedHash freshThree
              deleteAdmin plainSession firstTable) as (_ & Hforbidden & Hout & _).
  split; [apply Hforbidden; vm_compute; discriminate | exact Hout].
Defined.

(** ** One admin, for good *)

Lemma single_admin_count (db : list UserRow) :
  NoDup (u_username <$> db) ->
  (∀ row, row ∈ db -> (u_role row = "admin" <-> u_username row = "admin")) ->
  count_admins db = if decide ("admin" ∈ u_username <$> db) then 1%nat else 0%nat.
Proof.
  induction db as [| r db IH]; intros Hnodup Hroles.
  - rewrite decide_False by apply not_elem_of_nil. reflexivity.
  - rewrite fmap_cons in Hnodup. apply NoDup_cons in Hnodup as [Hfresh Hnodup].
    rewrite count_admins_cons.
    rewrite IH by (auto; intros row Hrow; apply Hroles; apply list_elem_of_further; exact Hrow).
    pose proof (Hroles r (list_elem_of_here _ _)) as Hr.
    destruct (decide (u_role r = "admin")) as [Hadmin | Hplain].
    + apply Hr in Hadmin. rewrite Hadmin in Hfresh.
      rewrite decide_False by exact Hfresh.
      rewrite decide_True by (rewrite fmap_cons, Hadmin; apply list_elem_of_here).
      reflexivity.
    + assert (u_username r ≠ "admin") by tauto.
      destruct (decide ("admin" ∈ u_username <$> db)) as [Hin | Hout].
      * rewrite decide_True by (rewrite fmap_cons; apply list_elem_of_further; exact Hin).
        reflexivity.
      * rewrite decide_False; [reflexivity |].
        rewrite fmap_cons, not_elem_of_cons. split; [congruence | exact Hout].
Qed.

Lemma single_admin_select (db : list UserRow) :
  single_admin db -> select_role db "admin" = Some "admin" ∧ count_admins db = 1%nat.
Proof.
  intros (Hnodup & Hin & Hroles). split.
  - rewrite select_role_user. destruct (select_user db "admin") as [row |] eqn:Hsel.
    + apply select_user_some in Hsel as [Hrow Hname]. simpl. f_equal.
      apply Hroles; assumption.
    + apply select_user_none in Hsel. contradiction.
  - rewrite single_admin_count by assumption. rewrite decide_True by exact Hin. reflexivity.
Qed.

Lemma single_admin_app (db : list UserRow) (row : UserRow) :
  single_admin db -> u_username row ∉ u_username <$> db -> u_role row = "user" ->
  single_admin (db ++ [row]).
Proof.
  intros (Hnodup & Hin & Hroles) Hfresh Hrole. split; [| split].
  - apply NoDup_names_app; assumption.
  - rewrite fmap_app, elem_of_app. left. exact Hin.
  - intros r Hr. apply elem_of_app in Hr as [Hr | Hr]; [apply Hroles; exact Hr |].
    apply list_elem_of_singleton in Hr. subst r. rewrite Hrole.
    split; [discriminate | intros Hname; rewrite Hname in Hfresh; contradiction].
Qed.

Lemma single_admin_delete (db : list UserRow) (username : string) :
  single_admin db -> username ≠ "admin" -> single_admin (delete_user username db).
Proof.
  intros (Hnodup & Hin & Hroles) Hne. unfold delete_user. split; [| split].
  - apply (NoDup_fmap_2_strong u_username).
    + intros x y Hx Hy Hxy. apply list_elem_of_filter in Hx as [_ Hx], Hy as [_ Hy].
      apply list_elem_of_lookup_1 in Hx as [i Hi], Hy as [j Hj].
      assert (i = j).
      { apply (NoDup_lookup (u_username <$> db) i j (u_username x) Hnodup).
        - rewrite list_lookup_fmap, Hi. reflexivity.
        - rewrite list_lookup_fmap, Hj. simpl. now rewrite Hxy. }
      subst j. congruence.
    + apply NoDup_filter. eapply NoDup_fmap_1. exact Hnodup.
  - apply list_elem_of_fmap in Hin as (row & Hname & Hrow).
    apply list_elem_of_fmap. exists row. split; [exact Hname |].
    apply list_elem_of_filter. split; [congruence | exact Hrow].
  - intros row Hrow. apply list_elem_of_filter in Hrow as [_ Hrow]. apply Hroles. exact Hrow.
Qed.

Lemma init_db_single_admin generate_password_hash adminPassword userPassword
    (f1 f2 : Fresh) (db : list UserRow) :
  db = [] ∨ single_admin db ->
  ∃ db', init_db generate_password_hash adminPassword userPassword f1 f2 db = (None, db')
         ∧ single_admin db'.
Proof.
  intros Hdb.
  destruct (init_db_cases generate_password_hash adminPassword userPassword f1 f2 db)
    as (added & -> & Hadded).
  eexists. split; [reflexivity |]. destruct Hdb as [-> | Hsingle].
  - subst added. simpl. split; [| split].
    + simpl. apply NoDup_cons. split; [| apply NoDup_singleton].
      intros Hin. apply list_elem_of_singleton in Hin. discriminate.
    + apply list_elem_of_here.
    + intros row Hrow. apply elem_of_cons in Hrow as [-> | Hrow]; [simpl; tauto |].
      apply list_elem_of_singleton in Hrow. subst row. simpl. split; discriminate.
  - pose proof Hsingle as (_ & Hin & _). subst added.
    rewrite bool_decide_eq_true_2 by exact Hin. simpl.
    destruct (decide ("user" ∈ u_username <$> db)) as [Hu | Hu].
    + rewrite bool_decide_eq_true_2 by exact Hu. rewrite app_nil_r. exact Hsingle.
    + rewrite bool_decide_eq_false_2 by exact Hu.
      apply single_admin_app; [exact Hsingle | exact Hu | reflexivity].
Qed.

(** X20 — in a deployment that starts without users, after any sequence of
    logins, logouts, user creations and deletions, each request first
    running [init_db]: the names are unique, exactly one row is an admin,
    and it is the default account ["admin"]; so no request ever makes a
    second admin, and none deletes the default one. *)
Theorem fresh_deployment_keeps_one_admin
    (strip : string -> string) (int : string -> option Z)
    (generate_password_hash : string -> string -> string)
    (check_password_hash : string -> string -> bool)
    (adminPassword userPassword : string) (db : list UserRow) :
  served strip int generate_password_hash check_password_hash adminPassword userPassword db ->
  db = []
  ∨ (NoDup (u_username <$> db)
     ∧ count_admins db = 1%nat
     ∧ select_role db "admin" = Some "admin"
     ∧ ∀ row, row ∈ db -> u_role row = "admin" -> u_username row = "admin").
Proof.
  intros Hserved.
  assert (Hinv : db = [] ∨ single_admin db).
  { induction Hserved as [| db f1 f2 f r req session _ IH]; [left; reflexivity | right].
    unfold serve.
    destruct (init_db_single_admin generate_password_hash adminPassword userPassword
                f1 f2 db IH) as (db1 & -> & Hsingle).
    destruct r.
    - destruct (login_post strip check_password_hash req session db1) as [[out s] p].
      exact Hsingle.
    - exact Hsingle.
    - pose proof (create_user_cases_helper strip generate_password_hash f req session db1)
        as [-> | (-> & Hfresh)]; [exact Hsingle |].
      apply single_admin_app; [exact Hsingle | exact Hfresh | reflexivity].
    - unfold admin_delete_user.
      destruct (admin_required_cases (admin_delete_user_body strip int) req session db1)
        as [(_ & _ & ->) | [_ [-> | ->]]]; try exact Hsingle.
      destruct (admin_delete_user_body_cases strip int req session db1)
        as [-> | (Hguard & -> & _)]; [exact Hsingle |].
      apply single_admin_delete; [exact Hsingle |].
      intros Hname. rewrite Hname in Hguard.
      destruct (single_admin_select db1 Hsingle) as [Hsel Hcount].
      rewrite Hsel, Hcount in Hguard. rewrite bool_decide_eq_true_2 in Hguard by reflexivity.
      discriminate. }
  destruct Hinv as [-> | Hsingle]; [left; reflexivity | right].
  destruct (single_admin_select db Hsingle) as [Hsel Hcount].
  destruct Hsingle as (Hnodup & _ & Hroles).
  split; [exact Hnodup | split; [exact Hcount | split; [exact Hsel |]]].
  intros row Hrow Hadmin. apply Hroles; assumption.
Qed.

Lemma fresh_deployment_keeps_one_admin_witness :
  afterDeleteAttempt = []
  ∨ (NoDup (u_username <$> afterDeleteAttempt)
     ∧ count_admins afterDeleteAttempt = 1%nat
     ∧ select_role afterDeleteAttempt "admin" = Some "admin"
     ∧ ∀ row, row ∈ afterDeleteAttempt -> u_role row = "admin" -> u_username row = "admin").
Proof.
  apply (fresh_deployment_keeps_one_admin noBlanks decimalInt saltedHash saltedCheck
           "admin123" "user123" afterDeleteAttempt).
  unfold afterDeleteAttempt. apply served_request. apply served_fresh.
Defined.

Example default_admin_survives :
  afterDeleteAttempt
  = [ mkUserRow 1 "admin" "s1$admin123" "admin"; mkUserRow 2 "user" "s2$user123" "user" ].
Proof. vm_compute. reflexivity. Qed.

(** ** Logging in *)

(** X21 — [login_post] changes the session only for a row of the table
    that bears the stripped name and whose hash verifies the password: it
    then stores that row's id, name and role under ["uid"], ["username"]
    and ["role"], keeps the other keys, marks the session permanent and
    redirects to [next] (or ["/"]); in every other case the session is
    left as it is and the response is the redirect to the login page with
    its message. *)
Theorem login_needs_a_verified_row
    (strip : string -> string) (check_password_hash : string -> string -> bool)
    (req : Request) (session : gmap string SessionValue) (db : list UserRow) :
  let r := login_post strip check_password_hash req session db in
  let username := strip (form_get_or_empty req "username") in
  let password := form_get_or_empty req "password" in
  (r = (Returned (Redirect (loginFailed +:+ form_next req)), session, false)
   ∧ ∀ row, row ∈ db -> u_username row = username -> select_user db username = Some row ->
            check_password_hash (u_password_hash row) password = false)
  ∨ (∃ row, row ∈ db ∧ u_username row = username
       ∧ check_password_hash (u_password_hash row) password = true
       ∧ r.1.1 = Returned (Redirect (form_next req))
       ∧ r.2 = true
       ∧ r.1.2 !! "uid" = Some (SInt (u_id row))
       ∧ r.1.2 !! "username" = Some (SStr username)
       ∧ r.1.2 !! "role" = Some (SStr (u_role row))
       ∧ ∀ k, k ≠ "uid" -> k ≠ "username" -> k ≠ "role" -> r.1.2 !! k = session !! k).
Proof.
  intros r username password. subst r. unfold login_post. fold username password.
  destruct (select_user db username) as [row |] eqn:Hsel.
  - destruct (select_user_some db username row Hsel) as [Hrow Hname].
    destruct (check_password_hash (u_password_hash row) password) eqn:Hcheck.
    + right. exists row. cbn [fst snd]. rewrite Hname.
      split; [exact Hrow | split; [reflexivity | split; [exact Hcheck |]]].
      split; [reflexivity | split; [reflexivity |]].
      split; [| split; [| split]].
      * rewrite lookup_insert_ne by discriminate. rewrite lookup_insert_ne by discriminate.
        apply lookup_insert_eq.
      * rewrite lookup_insert_ne by discriminate. apply lookup_insert_eq.
      * apply lookup_insert_eq.
      * intros k Huid Hname' Hrole. rewrite !lookup_insert_ne by congruence. reflexivity.
    + left. split; [reflexivity |]. intros row' _ _ Hsel'. congruence.
  - left. split; [reflexivity |]. intros row _ _ Hsel'. congruence.
Qed.

Lemma headCheck_verifies (salt password : string) :
  headCheck (tailSaltHash salt password) password = true.
Proof.
  unfold headCheck, tailSaltHash.
  induction password as [| c p IH]; simpl.
  - destruct salt; reflexivity.
  - rewrite IH. destruct (ascii_dec c c); [reflexivity | congruence].
Qed.

(** X22 — a user the admin creates can log in: when [check_password_hash]
    accepts the hash [generate_password_hash] made of the same password, and
    the name and password are not empty and the name is new, then after
    [POST /admin/create_user] a login under a name that strips to the same
    name, with the same password, succeeds, with the role ["user"] and the
    id of the new row. *)
Theorem created_user_can_log_in
    (strip : string -> string)
    (generate_password_hash : string -> string -> string)
    (check_password_hash : string -> string -> bool)
    (f : Fresh) (create login : Request)
    (adminS session : gmap string SessionValue) (db : list UserRow) :
  (∀ salt p, check_password_hash (generate_password_hash salt p) p = true) ->
  adminS !! "uid" ≠ None -> adminS !! "role" = Some (SStr "admin") ->
  strip (form_get_or_empty create "username") ≠ EmptyString ->
  form_get_or_empty create "password" ≠ EmptyString ->
  strip (form_get_or_empty create "username") ∉ u_username <$> db ->
  strip (form_get_or_empty login "username") = strip (form_get_or_empty create "username") ->
  form_get_or_empty login "password" = form_get_or_empty create "password" ->
  let db' := (admin_create_user strip generate_password_hash f create adminS db).2 in
  let r := login_post strip check_password_hash login session db' in
  r.1.1 = Returned (Redirect (form_next login))
  ∧ r.1.2 !! "uid" = Some (SInt (new_id f))
  ∧ r.1.2 !! "username" = Some (SStr (strip (form_get_or_empty create "username")))
  ∧ r.1.2 !! "role" = Some (SStr "user").
Proof.
  intros Hhash Huid Hrole Hname Hpass Hfresh Hsame Hsamep db' r. subst r db'.
  unfold admin_create_user.
  destruct (admin_required_cases (admin_create_user_body strip generate_password_hash f)
              create adminS db) as [(_ & _ & ->) | [[Hk | Hk] _]]; [| contradiction ..].
  rewrite admin_create_user_body_cases. cbn [snd].
  rewrite bool_decide_eq_true_2 by (split; [| split]; assumption).
  unfold login_post. rewrite Hsame, Hsamep, select_user_app.
  apply select_user_none in Hfresh. rewrite Hfresh. cbn [u_username].
  rewrite bool_decide_eq_true_2 by reflexivity. cbn [u_password_hash].
  rewrite Hhash. cbn [fst snd u_id u_username u_role].
  split; [reflexivity | split; [| split]].
  - rewrite lookup_insert_ne by discriminate. rewrite lookup_insert_ne by discriminate.
    apply lookup_insert_eq.
  - rewrite lookup_insert_ne by discriminate. apply lookup_insert_eq.
  - apply lookup_insert_eq.
Qed.

Lemma created_user_can_log_in_witness :
  let db' := (admin_create_user noBlanks tailSaltHash freshThree createAlice
                adminSession firstTable).2 in
  let r := login_post noBlanks headCheck loginAlice ∅ db' in
  r.1.1 = Returned (Redirect (form_next loginAlice))
  ∧ r.1.2 !! "uid" = Some (SInt (new_id freshThree))
  ∧ r.1.2 !! "username" = Some (SStr (noBlanks (form_get_or_empty createAlice "username")))
  ∧ r.1.2 !! "role" = Some (SStr "user").
Proof.
  apply (created_user_can_log_in noBlanks tailSaltHash headCheck freshThree
           createAlice loginAlice adminSession ∅ firstTable).
  - exact headCheck_verifies.
  - vm_compute. discriminate.
  - vm_compute. reflexivity.
  - vm_compute. discriminate.
  - vm_compute. discriminate.
  - apply (bool_decide_unpack (noBlanks (form_get_or_empty createAlice "username")
                               ∉ u_username <$> firstTable)).
    vm_compute. exact I.
  - reflexivity.
  - reflexivity.
Defined.

(** X23 — a user whose row does not have the role ["admin"] cannot use the
    admin routes after logging in: the session [login_post] gives them
    makes both routes answer 403 and leave the table as it is. *)
Theorem plain_user_cannot_administer
    (strip : string -> string) (int : string -> option Z)
    (generate_password_hash : string -> string -> string)
    (check_password_hash : string -> string -> bool)
    (f : Fresh) (login req : Request) (session : gmap string SessionValue)
    (db : list UserRow) (row : UserRow) :
  select_user db (strip (form_get_or_empty login "username")) = Some row ->
  check_password_hash (u_password_hash row) (form_get_or_empty login "password") = true ->
  u_role row ≠ "admin" ->
  let session' := (login_post strip check_password_hash login session db).1.2 in
  session' !! "uid" = Some (SInt (u_id row))
  ∧ admin_delete_user strip int req session' db = (Returned Forbidden, session', db)
  ∧ admin_create_user strip generate_password_hash f req session' db
    = (Returned Forbidden, session', db).
Proof.
  intros Hsel Hcheck Hrole session'. subst session'.
  unfold login_post. rewrite Hsel, Hcheck. cbn [fst snd].
  set (s := <["role" := SStr (u_role row)]> _).
  assert (Huid : s !! "uid" = Some (SInt (u_id row))).
  { subst s. rewrite lookup_insert_ne by discriminate. rewrite lookup_insert_ne by discriminate.
    apply lookup_insert_eq. }
  assert (Hnot : s !! "role" ≠ Some (SStr "admin")).
  { subst s. rewrite lookup_insert_eq. congruence. }
  split; [exact Huid |].
  unfold admin_delete_user, admin_create_user, admin_required. rewrite Huid.
  rewrite bool_decide_eq_false_2 by exact Hnot. split; reflexivity.
Qed.

Lemma plain_user_cannot_administer_witness :
  let session' := (login_post noBlanks saltedCheck loginUser ∅ firstTable).1.2 in
  session' !! "uid" = Some (SInt (u_id (mkUserRow 2 "user" "s2$user123" "user")))
  ∧ admin_delete_user noBlanks decimalInt deleteAdmin session' firstTable
    = (Returned Forbidden, session', firstTable)
  ∧ admin_create_user noBlanks saltedHash freshThree deleteAdmin session' firstTable
    = (Returned Forbidden, session', firstTable).
Proof.
  apply (plain_user_cannot_administer noBlanks decimalInt saltedHash saltedCheck freshThree
           loginUser deleteAdmin ∅ firstTable (mkUserRow 2 "user" "s2$user123" "user")).
  - vm_compute. reflexivity.
  - vm_compute. reflexivity.
  - discriminate.
Defined.

(** ** Deleting users *)




(** X25 — a [uid] field that [int] rejects makes [POST /admin/delete_user]
    fail with [ValueError] only after the row is deleted: for an admin
    session and a request the guard lets through, the handler raises, the
    session is kept, and the table has lost the named user. *)
Theorem junk_uid_raises_after_delete
    (strip : string -> string) (int : string -> option Z)
    (req : Request) (session : gmap string SessionValue) (db : list UserRow) (uid : string) :
  let username := strip (form_get_or_empty req "username") in
  session !! "uid" ≠ None -> session !! "role" = Some (SStr "admin") ->
  username ≠ EmptyString ->
  (select_role db username = Some "admin" -> (2 <= count_admins db)%nat) ->
  form req !! "uid" = Some uid -> uid ≠ EmptyString -> int uid = None ->
  admin_delete_user strip int req session db
  = (Raised "ValueError", session, delete_user username db).
Proof.
  intros username Huid Hrole Hname Hguard Hform Hne Hint.
  unfold admin_delete_user.
  destruct (admin_required_cases (admin_delete_user_body strip int) req session db)
    as [(_ & _ & ->) | [[Hk | Hk] _]]; [| contradiction ..].
  unfold admin_delete_user_body. fold username.
  destruct username as [| c name] eqn:Hu; [congruence |]. rewrite <- Hu in *.
  assert (Hpass : bool_decide (select_role db username = Some "admin")
                  && (count_admins db <=? 1)%nat = false).
  { destruct (decide (select_role db username = Some "admin")) as [Hadmin | Hplain].
    - rewrite bool_decide_eq_true_2 by exact Hadmin. simpl.
      apply Nat.leb_gt. specialize (Hguard Hadmin). lia.
    - rewrite bool_decide_eq_false_2 by exact Hplain. reflexivity. }
  rewrite Hpass, Hform. destruct uid as [| c' u]; [congruence |]. rewrite Hint. reflexivity.
Qed.

Lemma junk_uid_raises_after_delete_witness :
  admin_delete_user noBlanks decimalInt deleteUserJunkUid adminSession firstTable
  = (Raised "ValueError", adminSession,
     delete_user (noBlanks (form_get_or_empty deleteUserJunkUid "username")) firstTable).
Proof.
  apply (junk_uid_raises_after_delete noBlanks decimalInt deleteUserJunkUid adminSession
           firstTable "abc").
  - vm_compute. discriminate.
  - vm_compute. reflexivity.
  - vm_compute. discriminate.
  - vm_compute. discriminate.
  - vm_compute. reflexivity.
  - discriminate.
  - reflexivity.
Defined.
